(** * Temporal stability of iEEG abnormalities: the D_RS pipeline

    A shallow embedding of the [pyabnorm] package (compute_abnorm.py,
    vis_abnorm.py, common.py) and of the patient-ordering steps of the
    figure scripts, together with the properties the specification states
    about them.

    Numbers.  An array entry is a real number or NaN, as in the data model
    of the specification.  Finite values are exact rationals ([Q]): the
    rounding of IEEE doubles is not modelled.  Numbers computed by the code
    are kept in lowest terms ([Qred]) so that equal numbers are equal terms.

    Effects.  Exceptions are values of [result]; in-place updates of numpy
    arrays are modelled on a heap of array objects; the standard output,
    the file system and the matplotlib axes are fields of explicit states. *)

From Stdlib Require Import QArith Qreduction ZArith List Bool Lia.
From Stdlib Require Import Permutation Sorted Lqa.
From Stdlib Require Import Qcanon Ascii.
From stdpp Require Import base option list gmap strings pretty.

Open Scope Q_scope.

(** ** Exceptions *)

Inductive exn :=
| ValueError | IndexError | TypeError | ZeroDivisionError | OverflowError
| FileNotFoundError | FileExistsError.

Inductive result (A : Type) :=
| Ok (a : A)
| Raise (e : exn).
Arguments Ok {A} a.
Arguments Raise {A} e.

#[global] Instance result_ret : MRet result := fun A a => Ok a.
#[global] Instance result_bind : MBind result := fun A B f r =>
  match r with Ok a => f a | Raise e => Raise e end.

(** Computations on a state [S] that may raise: the state at the point of
    the exception is kept. *)
Definition stE (S A : Type) : Type := S -> result A * S.

#[global] Instance stE_ret {S} : MRet (stE S) := fun A a s => (Ok a, s).
#[global] Instance stE_bind {S} : MBind (stE S) := fun A B f m s =>
  match m s with
  | (Ok a, s') => f a s'
  | (Raise e, s') => (Raise e, s')
  end.

Definition lift {S A : Type} (r : result A) : stE S A := fun s => (r, s).
Definition raise {S A : Type} (e : exn) : stE S A := fun s => (Raise e, s).

(** [for i in range(n): acc = body(i, acc)] with exceptions. *)
Fixpoint for_in {A : Type} (ixs : list nat) (body : nat -> A -> result A)
    (acc : A) : result A :=
  match ixs with
  | [] => Ok acc
  | i :: ixs' => acc' ← body i acc; for_in ixs' body acc'
  end.


(** [[f(x) for x in l]] with exceptions. *)
Fixpoint map_result {A B : Type} (f : A -> result B) (l : list A)
    : result (list B) :=
  match l with
  | [] => Ok []
  | x :: l' => y ← f x; ys ← map_result f l'; Ok (y :: ys)
  end.

(** ** Numbers and arrays *)

(** [x < y] on rationals. *)
Definition Qlt_bool (x y : Q) : bool := negb (Qle_bool y x).

Inductive float :=
| NaN
| Fin (q : Q).

(** A product with NaN is NaN. *)
Definition fmul (x y : float) : float :=
  match x, y with
  | Fin p, Fin q => Fin (Qred (p * q))
  | _, _ => NaN
  end.

(** A two-dimensional float array: its shape and its entries. *)
Record array2 := Array2 {
  shape : nat * nat;
  item : nat -> nat -> float
}.

(** [a[:,i]]: column [i], one entry per row. *)
Definition column (a : array2) (i : nat) : list float :=
  map (fun j => item a j i) (seq 0 (fst (shape a))).

(** The array with the given rows (entries outside the rows are NaN). *)
Definition of_rows (n_col : nat) (rows : list (list float)) : array2 :=
  {| shape := (length rows, n_col);
     item := fun j i => nth i (nth j rows []) NaN |}.

Module np.

Definition zeros (n : nat) : list float := replicate n (Fin 0).

Definition isnan (v : list float) : list bool :=
  map (fun x => match x with NaN => true | Fin _ => false end) v.

(** [np.invert] / [~] on a boolean array. *)
Definition invert (b : list bool) : list bool := map negb b.

(** [np.sum] of a boolean array: the number of True entries. *)
Definition sum (b : list bool) : nat := length (List.filter id b).

(** [a[mask]] for a boolean mask: the entries where the mask is True;
    numpy raises IndexError when the mask has another length. *)
Definition take {A : Type} (a : list A) (mask : list bool) : result (list A) :=
  if (length a =? length mask)%nat
  then Ok (map fst (List.filter snd (combine a mask)))
  else Raise IndexError.


(** [a[idx,:]]: the rows at the given indices. *)
Definition rows (a : array2) (idx : list nat) : result (list (list float)) :=
  map_result (fun j =>
    if (j <? fst (shape a))%nat
    then Ok (map (item a j) (seq 0 (snd (shape a))))
    else Raise IndexError) idx.

End np.

(** ** sklearn.metrics.roc_auc_score, binary case

    The library is not part of the repository; this is its documented
    behaviour.  The ROC curve has one point per distinct score value, taken
    in decreasing order as thresholds: the true (false) positive rate at
    threshold [t] is the fraction of positive (negative) samples whose
    score is at least [t]; the curve starts at (0,0).  The score is the
    area under that curve by the trapezoidal rule.  The call raises
    ValueError when the arrays differ in length, when a score is NaN, or
    when [y_true] does not hold both classes. *)

Module sk_metrics.

(** Insert a score in a strictly decreasing list of distinct scores. *)
Fixpoint insert_desc (x : Q) (ts : list Q) : list Q :=
  match ts with
  | [] => [x]
  | t :: ts' =>
      if Qeq_bool x t then ts
      else if Qle_bool t x then x :: ts
      else t :: insert_desc x ts'
  end.

Definition thresholds (y_score : list Q) : list Q :=
  fold_right insert_desc [] y_score.

(** The scores of the samples of one class. *)
Definition scores_of (label : bool) (y_true : list bool) (y_score : list Q)
    : list Q :=
  map snd (List.filter (fun s => Bool.eqb (fst s) label) (combine y_true y_score)).

Definition count (p : Q -> bool) (l : list Q) : Z :=
  Z.of_nat (length (List.filter p l)).

(** [roc_curve]: the false and true positive rates, threshold by threshold. *)
Definition roc_curve (y_true : list bool) (y_score : list Q)
    : list Q * list Q :=
  let pos := scores_of true y_true y_score in
  let neg := scores_of false y_true y_score in
  let ths := thresholds y_score in
  let tps := 0%Z :: map (fun t => count (Qle_bool t) pos) ths in
  let fps := 0%Z :: map (fun t => count (Qle_bool t) neg) ths in
  (map (fun c => inject_Z c / inject_Z (Z.of_nat (length neg))) fps,
   map (fun c => inject_Z c / inject_Z (Z.of_nat (length pos))) tps).

(** [np.trapz(y, x)]: the trapezoidal rule. *)
Fixpoint trapz (y x : list Q) : Q :=
  match x, y with
  | x0 :: ((x1 :: _) as x'), y0 :: ((y1 :: _) as y') =>
      (x1 - x0) * (y1 + y0) / 2 + trapz y' x'
  | _, _ => 0
  end.

(** [auc(x, y)] *)
Definition auc (x y : list Q) : Q := trapz y x.

(** The finite values of a score array, or None when one is NaN. *)
Fixpoint finite (v : list float) : option (list Q) :=
  match v with
  | [] => Some []
  | NaN :: _ => None
  | Fin q :: v' => option_map (cons q) (finite v')
  end.

Definition roc_auc_score (y_true : list bool) (y_score : list float)
    : result float :=
  if negb (length y_true =? length y_score)%nat then Raise ValueError
  else match finite y_score with
  | None => Raise ValueError
  | Some s =>
      if existsb id y_true && existsb negb y_true then
        let '(fpr, tpr) := roc_curve y_true s in
        Ok (Fin (Qred (auc fpr tpr)))
      else Raise ValueError
  end.

End sk_metrics.

(** ** pyabnorm/compute_abnorm.py *)

Module compute_abnorm.

(** The body of the loop of [compute_d_rs]: the value stored in [d_rs[i]]. *)
Definition d_rs_window (roi_data : array2) (roi_is_resect : list bool)
    (i : nat) : result float :=
  (* measure from specified time window *)
  let data_i := column roi_data i in
  (* keep non-nan ROI *)
  let keep_roi := np.invert (np.isnan data_i) in
  data_i ← np.take data_i keep_roi;
  resect_i ← np.take roi_is_resect keep_roi;
  let spared_i := np.invert resect_i in
  (* check that still have both classes *)
  if (0 <? np.sum spared_i)%nat && (0 <? np.sum (np.invert spared_i))%nat
  then sk_metrics.roc_auc_score spared_i data_i
  else Ok NaN.

Definition compute_d_rs (roi_data : array2) (roi_is_resect : list bool)
    : result (list float) :=
  (* data dimensions *)
  let '(n_roi, n_win) := shape roi_data in
  (* initialise d_rs array *)
  let d_rs := np.zeros n_win in
  (* check that have both classes *)
  if (0 <? np.sum roi_is_resect)%nat
     && (0 <? np.sum (np.invert roi_is_resect))%nat
  then
    for_in (seq 0 n_win) (fun i d_rs =>
      x ← d_rs_window roi_data roi_is_resect i;
      Ok (<[i := x]> d_rs)) d_rs
  else Ok (map (fun x => fmul x NaN) d_rs).

End compute_abnorm.

(** ** compute_d_rs on a heap of array objects

    numpy arrays are mutable objects passed by reference.  The heap maps
    references to the arrays; [compute_d_rs_st] is the function as it acts
    on references: it reads its arguments from the heap at every use,
    allocates the result array, and updates it in place in the loop.  The
    temporaries of the loop body ([roi_data[:,i].copy()], the masked
    copies) are fresh arrays that nothing else refers to and are kept as
    values. *)

Inductive object :=
| Floats (v : list float)
| Bools (b : list bool)
| Matrix (a : array2).

Definition ref := nat.

(** Computations that read and update the heap and may raise. *)
Abbreviation st := (stE (gmap ref object)).

Definition alloc (o : object) : st ref := fun h =>
  let l := fresh (dom h) in (Ok l, <[l := o]> h).

Definition load_matrix (l : ref) : st array2 := fun h =>
  match h !! l with
  | Some (Matrix a) => (Ok a, h)
  | _ => (Raise TypeError, h)
  end.

Definition load_bools (l : ref) : st (list bool) := fun h =>
  match h !! l with
  | Some (Bools b) => (Ok b, h)
  | _ => (Raise TypeError, h)
  end.

Definition load_floats (l : ref) : st (list float) := fun h =>
  match h !! l with
  | Some (Floats v) => (Ok v, h)
  | _ => (Raise TypeError, h)
  end.

(** [a[i] = x] on a float array. *)
Definition store_item (l : ref) (i : nat) (x : float) : st unit := fun h =>
  match h !! l with
  | Some (Floats v) =>
      if (i <? length v)%nat then (Ok tt, <[l := Floats (<[i := x]> v)]> h)
      else (Raise IndexError, h)
  | _ => (Raise TypeError, h)
  end.

Fixpoint for_st (ixs : list nat) (body : nat -> st unit) : st unit :=
  match ixs with
  | [] => mret tt
  | i :: ixs' => _ ← body i; for_st ixs' body
  end.

Module compute_abnorm_st.
Import compute_abnorm.

(** The body of the loop: [d_rs[i] = ...], computed from the arguments. *)
Definition loop_body (roi_data roi_is_resect d_rs : ref) (i : nat) : st unit :=
  a ← load_matrix roi_data;
  r ← load_bools roi_is_resect;
  x ← lift (d_rs_window a r i);
  store_item d_rs i x.

Definition compute_d_rs_st (roi_data roi_is_resect : ref) : st ref :=
  a ← load_matrix roi_data;
  let '(n_roi, n_win) := shape a in
  d_rs ← alloc (Floats (np.zeros n_win));
  r ← load_bools roi_is_resect;
  if (0 <? np.sum r)%nat && (0 <? np.sum (np.invert r))%nat
  then
    _ ← for_st (seq 0 n_win) (loop_body roi_data roi_is_resect d_rs);
    mret d_rs
  else
    v ← load_floats d_rs;
    alloc (Floats (map (fun x => fmul x NaN) v)).

End compute_abnorm_st.

(** What a call hands back: the object behind the returned reference, or
    the exception. *)
Definition returned (res : result ref) (h : gmap ref object)
    : result (option object) :=
  match res with
  | Ok l => Ok (h !! l)
  | Raise e => Raise e
  end.

Definition done_or_raise {A : Type} (r : result A) : result unit :=
  match r with Ok _ => Ok tt | Raise e => Raise e end.

(** The value a call returns, as an object. *)
Definition as_object (r : result (list float)) : result (option object) :=
  match r with Ok d => Ok (Some (Floats d)) | Raise e => Raise e end.

(** ** The world of the plotting functions and scripts

    The standard output, the matplotlib axes that is drawn on, and the
    directories and files of the file system. *)

Inductive alternative := two_sided | less | greater.

(** A p-value of [scipy.stats.ranksums(x, y, alternative)].  The normal
    approximation behind it is not rational arithmetic: the call is kept
    as an uninterpreted term. *)
Inductive pvalue :=
| p_nan
| ranksums (x y : list float) (alt : alternative).

(** What has been drawn on an axes, in the order of the calls. *)
Inductive artist :=
| Inset_axes
| Heatmap (rows : list (list float)) (yticklabels : list string)
| Line (x : list Q) (y : list float)
| Xlim (lo hi : Q)
| Ylim (lo hi : Q)
| Xticks (ticks : list Q)
| Xticks_at (ticks : list nat)
| Xticklabels (labels : list Q)
| Xticklabels_str (labels : list string)
| Xlabel (s : string)
| Ylabel (s : string)
| Title (s : string)
| Title_auc (meas_name : string) (auc : float) (p : pvalue)
            (p_side : alternative) (n : nat)
| Spines_visible
| Axhline (y : Q)
| Yticklabels_grey (first last : nat)
| Violin (x : list bool) (y : list float)
| Swarm (x : list bool) (y : list float)
| Legend_removed.

Inductive node := Dir | File.

Record world := World {
  stdout : list string;
  axes : list artist;
  files : gmap string node
}.

Abbreviation io := (stE world).

Definition print (s : string) : io unit := fun w =>
  (Ok tt, World (stdout w ++ [s]) (axes w) (files w)).

Definition draw (a : artist) : io unit := fun w =>
  (Ok tt, World (stdout w) (axes w ++ [a]) (files w)).







(** ** np.argsort

    [np.argsort(keys)] returns indices that sort [keys].  With the default
    [kind] (an introsort) the order of indices with equal keys is not
    specified: the default sort is an implementation of the contract
    [sorts].  With [kind='stable'] the indices of equal keys stay in
    increasing order, which determines the result; it is computed here by
    insertion. *)










(** ** pyabnorm/vis_abnorm.py *)

Module vis_abnorm.




Definition plot_outcome_auc (good_outcome : list bool) (pnt_meas : list float)
    (ylim : Q * Q) (meas_name : string) (meas_ref : Q)
    (p_side : alternative) (overlay_violin : bool) : io (float * pvalue) :=
  (* first remove any nans *)
  let is_nan := np.isnan pnt_meas in
  pnt_meas ← lift (np.take pnt_meas (np.invert is_nan));
  good_outcome ← lift (np.take good_outcome (np.invert is_nan));
  _ ← print ("removed " +:+ pretty (np.sum is_nan)
             +:+ " patients due to NaN measure");
  (* define bad outcome patients *)
  let bad_outcome := np.invert good_outcome in
  (* compute AUC *)
  auc_p ← (if (0 <? length pnt_meas)%nat then
             auc ← lift (sk_metrics.roc_auc_score bad_outcome pnt_meas);
             x ← lift (np.take pnt_meas (np.invert bad_outcome));
             y ← lift (np.take pnt_meas bad_outcome);
             mret (auc, ranksums x y p_side)
           else mret (NaN, p_nan));
  (* PLOT *)
  _ ← draw (Ylim (fst ylim) (snd ylim));
  _ ← draw (Axhline meas_ref);
  _ ← (if (0 <? length pnt_meas)%nat then
         (* violin *)
         _ ← (if overlay_violin then draw (Violin bad_outcome pnt_meas)
              else mret tt);
         (* beeswarm *)
         _ ← draw (Swarm bad_outcome pnt_meas);
         _ ← draw Legend_removed;
         draw (Xticklabels_str ["ILAE 1"; "ILAE 2+"])
       else mret tt);
  _ ← draw (Title_auc meas_name (fst auc_p) (snd auc_p) p_side (length pnt_meas));
  _ ← draw (Ylabel meas_name);
  _ ← draw (Xlabel "surgical outcome");
  mret auc_p.

End vis_abnorm.

(** ** pyabnorm/common.py *)

Module common.



End common.

(** ** The patient ordering of plot_figure3.py and
       plot_figure4_across_patients.py *)

Module scripts.








End scripts.

(** ** The statistic in the words of the specification

    For a window, the spared (resected) values are the non-missing entries
    of the column at the ROIs whose resection flag is False (True). *)

Definition group_values (flag : bool) (v : list float) (b : list bool)
    : list Q :=
  omap (fun xb : float * bool =>
          match fst xb with
          | Fin q => if Bool.eqb (snd xb) flag then Some q else None
          | NaN => None
          end) (combine v b).

Definition roi_values (resected : bool) (M : array2) (r : list bool)
    (i : nat) : list Q :=
  group_values resected (column M i) r.

Definition spared_values := roi_values false.
Definition resected_values := roi_values true.

Definition sumZ {A : Type} (f : A -> Z) (l : list A) : Z :=
  fold_right (fun x acc => (f x + acc)%Z) 0%Z l.

(** The number of pairs (s, r) of a spared and a resected value with
    [rel s r]. *)
Definition pairs (rel : Q -> Q -> bool) (spared resected : list Q) : Z :=
  sumZ (fun s => sk_metrics.count (rel s) resected) spared.

Definition exceeds (s r : Q) : bool := Qlt_bool r s.
Definition ties (s r : Q) : bool := Qeq_bool r s.

Definition len (l : list Q) : Q := inject_Z (Z.of_nat (length l)).


(** The Mann-Whitney statistic: as above, a tied pair counting one half. *)
Definition mann_whitney (spared resected : list Q) : Q :=
  (inject_Z (pairs exceeds spared resected)
   + inject_Z (pairs ties spared resected) / 2)
  / (len spared * len resected).

(** The contract of section 4.1 of the specification for one window: the
    Mann-Whitney statistic of the spared and resected values when both
    exist, NaN otherwise. *)
Definition d_rs_spec (M : array2) (r : list bool) (i : nat) : float :=
  if (0 <? length (spared_values M r i))%nat
     && (0 <? length (resected_values M r i))%nat
  then Fin (Qred (mann_whitney (spared_values M r i) (resected_values M r i)))
  else NaN.

(** The (value, resection flag) pairs of the ROIs with a value. *)
Definition kept (v : list float) (r : list bool) : list (Q * bool) :=
  omap (fun xb : float * bool =>
          match fst xb with
          | Fin q => Some (q, snd xb)
          | NaN => None
          end) (combine v r).





(** All values are equal across the two groups. *)
Definition all_tied (S R : list Q) : Prop :=
  Forall (fun s => Forall (fun r => r == s) R) S.

(** Four ROIs, the first two resected, observed in one window. *)
Definition resect_2_of_4 : list bool := [true; true; false; false].

Definition one_window (a b c d : Q) : array2 :=
  of_rows 1 [ [Fin a]; [Fin b]; [Fin c]; [Fin d] ].


(** The end-to-end scenario of the specification: 4 ROIs, 3 windows. *)
Definition scenario : array2 :=
  of_rows 3 [ [Fin 1; NaN; NaN]; [Fin 2; Fin 2; NaN];
              [Fin 5; Fin 5; Fin 5]; [Fin 6; Fin 6; Fin 6] ].

(** A heap holding the scenario: the matrix at 0, the resection flags at 1. *)
Definition scenario_heap : gmap ref object :=
  <[0%nat := Matrix scenario]> (<[1%nat := Bools resect_2_of_4]> ∅).


Definition empty_world : world := World [] [] ∅.

(** A cohort of four patients, the third without a measure. *)
Definition four_outcomes : list bool := [true; false; true; false].
Definition four_measures : list float :=
  [Fin (1 # 3); Fin (2 # 3); NaN; Fin 1].





(** Twice the area under a curve through points with integer coordinates. *)
Fixpoint trapz2 (y x : list Z) : Z :=
  match x, y with
  | x0 :: ((x1 :: _) as x'), y0 :: ((y1 :: _) as y') =>
      ((x1 - x0) * (y1 + y0) + trapz2 y' x')%Z
  | _, _ => 0%Z
  end.

(** Twice the number of (positive, negative) pairs in which the positive
    score is the larger one, plus the number of tied pairs. *)
Definition pairs2 (pos neg : list Q) : Z :=
  sumZ (fun s => 2 * sk_metrics.count (exceeds s) neg + sk_metrics.count (ties s) neg)%Z pos.

Definition below (t : Q) (l : list Q) : list Q :=
  List.filter (fun x => Qlt_bool x t) l.

(** Strictly decreasing lists, and lists that hold every value of another
    one up to equality of rationals. *)
Definition desc (ths : list Q) : Prop :=
  StronglySorted (fun a b => b < a) ths.

Definition covers (ths l : list Q) : Prop :=
  forall x, In x l -> exists t, In t ths /\ x == t.

(** ** Further definitions for the properties of the code

    The matrix whose values are transformed window by window (NaN stays
    NaN), as by the normalisation of the figure scripts. *)
Definition map_windows (f : nat -> Q -> Q) (M : array2) : array2 :=
  {| shape := shape M;
     item := fun j i => match item M j i with
                        | NaN => NaN
                        | Fin q => Fin (f i q)
                        end |}.

(** Both classes occur in a boolean array. *)
Definition both_classes (r : list bool) : bool :=
  (0 <? np.sum r)%nat && (0 <? np.sum (np.invert r))%nat.


(** The values of each window are transformed by a strictly increasing
    function. *)
Definition increasing (f : nat -> Q -> Q) : Prop :=
  forall i x y, x < y <-> f i x < f i y.



(** ** pyabnorm/common.py: mat_load_as_dict

    [scipy.io.loadmat] is not part of the repository: the dictionary [d]
    that it returns for the file is a parameter.  Subscripting [d] with a
    variable that the file does not hold raises KeyError with that
    variable.  The entries are looked up by key only: the order of the
    keys of a Python dictionary is not modelled. *)

Inductive loaded (A : Type) :=
| Loaded (a : A)
| KeyError (k : string).
Arguments Loaded {A} a.
Arguments KeyError {A} k.

(** [mat_dict[k] = d[k]] *)
Definition keep_variable {V : Type} (d : gmap string V)
    (mat_dict : loaded (gmap string V)) (k : string)
    : loaded (gmap string V) :=
  match mat_dict with
  | Loaded m =>
      match d !! k with
      | Some v => Loaded (<[k := v]> m)
      | None => KeyError k
      end
  | KeyError k' => KeyError k'
  end.

Definition mat_load_as_dict {V : Type} (d : gmap string V)
    (args : list string) : loaded (gmap string V) :=
  match args with
  | [] =>
      (* load all variables *)
      Loaded d
  | _ =>
      (* only keep specified variables in dictionary *)
      fold_left (keep_variable d) args (Loaded ∅)
  end.

(** The variables of a patient file that plot_figure3.py asks for. *)
Definition figure3_variables : list string :=
  ["pnt_id"; "roi_ab"; "roi_is_resect"; "good_outcome"; "n_win_per_hr"].

(** The variables of a patient file, each with a number standing for its
    value. *)
Definition patient_file : gmap string Z :=
  <["n_win_per_hr" := 120%Z]> (<["good_outcome" := 1%Z]>
    (<["roi_is_resect" := 2%Z]> (<["roi_ab" := 3%Z]>
      (<["pnt_id" := 4%Z]> (<["t_days" := 5%Z]> ∅))))).

(** ** plot_figure4_example_patient.py and plot_figure4_across_patients.py:
       the interictal and periictal series

    [d_rs] is an array on the heap; the windows of a period are marked by
    a non-zero entry of a numeric array. *)

Module figure4.

(** [a.copy()] *)
Definition copy (a : ref) : st ref :=
  v ← load_floats a;
  alloc (Floats v).

(** [a[mask] = x] for a boolean mask, in place; numpy raises IndexError
    when the mask has another length. *)
Definition setitem_mask (a : ref) (mask : list bool) (x : float) : st unit :=
  fun h =>
    match h !! a with
    | Some (Floats v) =>
        if (length v =? length mask)%nat
        then (Ok tt,
              <[a := Floats (zip_with (fun y (m : bool) => if m then x else y)
                                      v mask)]> h)
        else (Raise IndexError, h)
    | _ => (Raise TypeError, h)
    end.

(** [win == 0] *)
Definition eq_zero (win : list Z) : list bool := map (fun k => (k =? 0)%Z) win.

Definition period_series (d_rs : ref) (win_interictal win_periictal : list Z)
    : st (ref * ref) :=
  d_rs_interictal ← copy d_rs;
  (* remove data that is not interical *)
  _ ← setitem_mask d_rs_interictal (eq_zero win_interictal) NaN;
  d_rs_periictal ← copy d_rs;
  (* remove data that is not periictal *)
  _ ← setitem_mask d_rs_periictal (eq_zero win_periictal) NaN;
  mret (d_rs_interictal, d_rs_periictal).

End figure4.

(** ** plot_figure3.py: the localising percentage *)

Module figure3.

(** The value of a division of two counts in numpy: [0/0] is NaN and
    [k/0] an infinity (with a warning), not an exception. *)
Inductive scalar :=
| s_nan
| s_inf
| s_num (q : Q).

(** [d_rs <= 0.5]: a comparison with NaN is False. *)
Definition le_half (d_rs : list float) : list bool :=
  map (fun x => match x with
                | NaN => false
                | Fin q => Qle_bool q (1 # 2)
                end) d_rs.

(** percentage of non-nan time windows with D_RS <= 0.5 *)
Definition perc_localising (d_rs : list float) : scalar :=
  let k := np.sum (le_half d_rs) in
  let n := np.sum (np.invert (np.isnan d_rs)) in
  if (n =? 0)%nat then (if (k =? 0)%nat then s_nan else s_inf)
  else s_num (Qred (inject_Z (Z.of_nat k) / inject_Z (Z.of_nat n) * 100)).

End figure3.


(** A heap with a series of four windows at 0. *)
Definition series_heap : gmap ref object :=
  <[0%nat := Floats [Fin (1 # 4); NaN; Fin (3 # 4); Fin 1]]> ∅.

(** ** np.nanmedian, and the median D_RS of plot_figure2.py and
       plot_figure3.py

    The library is not part of the repository; this is its documented
    behaviour on a vector: the median of the entries that are not NaN (the
    middle entry of the sorted values, or the mean of the two middle
    entries), and NaN, with a warning, when there is no such entry. *)






(** ** plot_figure2.py: the example window with the median D_RS *)

Module figure2.






End figure2.

(* ================================================================== *)
(** * Properties *)

(** ** Counting *)

Section Counting.
Import sk_metrics.

Lemma count_nil p : count p [] = 0%Z.
Proof. reflexivity. Qed.

Lemma count_cons p x l :
  count p (x :: l) = ((if p x then 1 else 0) + count p l)%Z.
Proof. unfold count. simpl. destruct (p x); simpl length; lia. Qed.


Lemma count_ext_in p q l :
  (forall x, In x l -> p x = q x) -> count p l = count q l.
Proof.
  induction l as [|x l IH]; intros H; [reflexivity|].
  rewrite !count_cons.
  rewrite IH by (intros y Hy; apply H; right; exact Hy).
  rewrite (H x) by (left; reflexivity). reflexivity.
Qed.

Lemma count_filter p q l :
  count p (List.filter q l) = count (fun x => q x && p x) l.
Proof.
  induction l as [|x l IH]; [reflexivity|].
  simpl. rewrite count_cons. destruct (q x); simpl; rewrite ?count_cons, IH; reflexivity.
Qed.

Lemma count_split q p l :
  count p l = (count (fun x => q x && p x) l
               + count (fun x => negb (q x) && p x) l)%Z.
Proof.
  induction l as [|x l IH]; [reflexivity|].
  rewrite !count_cons, IH. destruct (q x), (p x); simpl; lia.
Qed.

Lemma count_true l : count (fun _ => true) l = Z.of_nat (length l).
Proof. induction l as [|x l IH]; [reflexivity|]. rewrite count_cons, IH. simpl length. lia. Qed.

Lemma count_le_length p l : (count p l <= Z.of_nat (length l))%Z.
Proof.
  induction l as [|x l IH]; [unfold count; simpl; lia|].
  rewrite count_cons. simpl length. destruct (p x); lia.
Qed.

Lemma sumZ_cons {A} (f : A -> Z) x l : sumZ f (x :: l) = (f x + sumZ f l)%Z.
Proof. reflexivity. Qed.

End Counting.

(** ** Comparisons of rationals as booleans *)

Lemma Qle_bool_spec x y : reflect (x <= y) (Qle_bool x y).
Proof. apply iff_reflect. symmetry. apply Qle_bool_iff. Qed.

Lemma Qeq_bool_spec x y : reflect (x == y) (Qeq_bool x y).
Proof. apply iff_reflect. symmetry. apply Qeq_bool_iff. Qed.

Lemma Qlt_bool_spec x y : reflect (x < y) (Qlt_bool x y).
Proof.
  unfold Qlt_bool. destruct (Qle_bool_spec y x); constructor; lra.
Qed.

Ltac qbool :=
  unfold exceeds, ties in *;
  repeat match goal with
  | |- context [Qle_bool ?x ?y] => destruct (Qle_bool_spec x y)
  | |- context [Qeq_bool ?x ?y] => destruct (Qeq_bool_spec x y)
  | |- context [Qlt_bool ?x ?y] => destruct (Qlt_bool_spec x y)
  end;
  simpl; try reflexivity; try lia; try (exfalso; lra).

(** ** The area under the ROC curve counts pairs *)

Section Area.
Import sk_metrics.

Lemma count_ge_below t l :
  count (Qle_bool t) l = (Z.of_nat (length l) - Z.of_nat (length (below t l)))%Z.
Proof.
  rewrite <- (count_true l), (count_split (fun x => Qlt_bool x t) (fun _ => true) l).
  fold (count (fun x => Qlt_bool x t) l). unfold below.
  replace (Z.of_nat (length (List.filter (fun x => Qlt_bool x t) l)))
    with (count (fun x => Qlt_bool x t) l) by reflexivity.
  rewrite (count_ext_in (fun x => Qlt_bool x t && true) (fun x => Qlt_bool x t))
    by (intros; apply andb_true_r).
  rewrite (count_ext_in (fun x => negb (Qlt_bool x t) && true) (Qle_bool t)).
  - lia.
  - intros x _. qbool.
Qed.

Lemma count_ge_lower t t' l :
  t' < t ->
  count (Qle_bool t') l = (count (Qle_bool t) l + count (Qle_bool t') (below t l))%Z.
Proof.
  intros Hlt. unfold below. rewrite count_filter.
  rewrite (count_split (fun x => Qlt_bool x t) (Qle_bool t') l).
  rewrite Z.add_comm. f_equal.
  apply count_ext_in. intros x _. qbool.
Qed.

Lemma length_below_count t l :
  Z.of_nat (length (below t l)) = count (fun x => Qlt_bool x t) l.
Proof. reflexivity. Qed.

Lemma below_cons t x l :
  below t (x :: l) = if Qlt_bool x t then x :: below t l else below t l.
Proof. reflexivity. Qed.

Lemma pairs2_split t pos neg :
  (forall x, In x (pos ++ neg) -> x <= t) ->
  pairs2 pos neg =
    (pairs2 (below t pos) (below t neg)
     + count (Qle_bool t) pos
       * (2 * Z.of_nat (length (below t neg)) + count (Qle_bool t) neg))%Z.
Proof.
  intros Hle. induction pos as [|s pos IH].
  - unfold pairs2. simpl. rewrite count_nil. lia.
  - assert (Hs : s <= t) by (apply Hle; left; reflexivity).
    assert (Hneg : forall r, In r neg -> r <= t)
      by (intros r Hr; apply Hle; simpl; right; apply in_or_app; right; exact Hr).
    unfold pairs2 in *. rewrite sumZ_cons, IH
      by (intros x Hx; apply Hle; right; exact Hx).
    rewrite (count_cons _ s pos), below_cons.
    destruct (Qlt_bool_spec s t) as [Hlt|Hge].
    + rewrite sumZ_cons.
      replace (count (exceeds s) (below t neg)) with (count (exceeds s) neg).
      replace (count (ties s) (below t neg)) with (count (ties s) neg).
      * destruct (Qle_bool_spec t s); [exfalso; lra|]. lia.
      * unfold below. rewrite count_filter. apply count_ext_in.
        intros r _. qbool.
      * unfold below. rewrite count_filter. apply count_ext_in.
        intros r _. qbool.
    + destruct (Qle_bool_spec t s); [|exfalso; lra].
      replace (count (exceeds s) neg) with (Z.of_nat (length (below t neg))).
      replace (count (ties s) neg) with (count (Qle_bool t) neg).
      * lia.
      * apply count_ext_in. intros r Hr. specialize (Hneg r Hr). qbool.
      * rewrite length_below_count. apply count_ext_in. intros r _. qbool.
Qed.

Lemma desc_inv t ths :
  desc (t :: ths) -> desc ths /\ forall t', In t' ths -> t' < t.
Proof.
  intros H. apply StronglySorted_inv in H as [H1 H2]. split; [exact H1|].
  intros t' Ht'. rewrite List.Forall_forall in H2. apply H2, Ht'.
Qed.

Lemma covers_le t ths l :
  desc (t :: ths) -> covers (t :: ths) l -> forall x, In x l -> x <= t.
Proof.
  intros Hd Hc x Hx. apply desc_inv in Hd as [_ Hd].
  destruct (Hc x Hx) as (t' & [<-|Ht'] & Heq); [lra|].
  specialize (Hd t' Ht'). lra.
Qed.

Lemma in_below t x l : In x (below t l) <-> In x l /\ x < t.
Proof.
  unfold below. rewrite List.filter_In.
  destruct (Qlt_bool_spec x t); intuition congruence.
Qed.

Lemma covers_below t ths pos neg :
  covers (t :: ths) (pos ++ neg) -> covers ths (below t pos ++ below t neg).
Proof.
  intros Hc x Hx.
  assert (In x (pos ++ neg) /\ x < t) as [Hin Hlt].
  { apply in_app_or in Hx. rewrite !in_below in Hx.
    split; [apply in_or_app|]; tauto. }
  destruct (Hc x Hin) as (t' & [<-|Ht'] & Heq); [lra|].
  exists t'. split; assumption.
Qed.

Lemma trapz2_step y0 y1 ys x0 x1 xs :
  trapz2 (y0 :: y1 :: ys) (x0 :: x1 :: xs)
  = ((x1 - x0) * (y1 + y0) + trapz2 (y1 :: ys) (x1 :: xs))%Z.
Proof. reflexivity. Qed.

(** The area under the unnormalised curve that starts at (F0, T0). *)
Lemma curve_area ths : forall pos neg (F0 T0 : Z),
  desc ths -> covers ths (pos ++ neg) ->
  trapz2 (T0 :: map (fun t => T0 + count (Qle_bool t) pos)%Z ths)
         (F0 :: map (fun t => F0 + count (Qle_bool t) neg)%Z ths)
  = (pairs2 pos neg + 2 * T0 * Z.of_nat (length neg))%Z.
Proof.
  induction ths as [|t ths IH]; intros pos neg F0 T0 Hd Hc.
  - assert (pos = [] /\ neg = []) as [-> ->].
    { destruct pos as [|x pos]; [destruct neg as [|x neg]|]; [tauto| |];
        destruct (Hc x) as (t & [] & _); simpl; auto. }
    simpl. unfold pairs2. simpl. lia.
  - pose proof (desc_inv _ _ Hd) as [Hd' Hlt].
    pose proof (covers_le _ _ _ Hd Hc) as Hle.
    set (a := count (Qle_bool t) pos). set (b := count (Qle_bool t) neg).
    assert (Hmap : forall l c0 (c : Z), c = count (Qle_bool t) l ->
      map (fun t' => c0 + count (Qle_bool t') l)%Z ths
      = map (fun t' => (c0 + c) + count (Qle_bool t') (below t l))%Z ths).
    { intros l c0 c ->. apply map_ext_in. intros t' Ht'.
      rewrite (count_ge_lower t t' l) by auto. lia. }
    cbn [map]. rewrite trapz2_step. fold a b.
    rewrite (Hmap pos T0 a), (Hmap neg F0 b) by reflexivity.
    rewrite IH by (auto using covers_below).
    rewrite (pairs2_split t pos neg Hle). fold a b.
    assert (Z.of_nat (length neg) = b + Z.of_nat (length (below t neg)))%Z as ->.
    { unfold b. rewrite count_ge_below. lia. }
    ring.
Qed.

(** The thresholds are strictly decreasing and hold every score. *)

Lemma in_insert_desc x y ts :
  In y (insert_desc x ts) -> y = x \/ In y ts.
Proof.
  induction ts as [|t ts IH]; simpl; [intuition|].
  destruct (Qeq_bool x t); [simpl; tauto|].
  destruct (Qle_bool t x); simpl; intuition.
Qed.

Lemma insert_desc_keeps x y ts : In y ts -> In y (insert_desc x ts).
Proof.
  induction ts as [|t ts IH]; simpl; [tauto|].
  destruct (Qeq_bool x t); [simpl; tauto|].
  destruct (Qle_bool t x); simpl; tauto.
Qed.

Lemma insert_desc_holds x ts : exists t, In t (insert_desc x ts) /\ x == t.
Proof.
  induction ts as [|t ts IH]; simpl.
  - exists x. split; [auto|reflexivity].
  - destruct (Qeq_bool_spec x t) as [Heq|Hne].
    + exists t. simpl. auto.
    + destruct (Qle_bool t x).
      * exists x. simpl. split; [auto|reflexivity].
      * destruct IH as (t' & Hin & Heq). exists t'. simpl. auto.
Qed.

Lemma desc_cons t ths :
  desc ths -> (forall t', In t' ths -> t' < t) -> desc (t :: ths).
Proof.
  intros Hd Hlt. constructor; [exact Hd|].
  apply List.Forall_forall. exact Hlt.
Qed.

Lemma insert_desc_desc x ts : desc ts -> desc (insert_desc x ts).
Proof.
  induction ts as [|t ts IH]; intros Hd; simpl.
  - apply desc_cons; [constructor|intros ? []].
  - destruct (desc_inv _ _ Hd) as [Hd' Hlt].
    destruct (Qeq_bool_spec x t) as [Heq|Hne]; [exact Hd|].
    destruct (Qle_bool_spec t x) as [Hle|Hgt].
    + apply desc_cons; [exact Hd|]. intros t' [<-|Ht'].
      * destruct (Qlt_le_dec t x) as [H|H]; [exact H|].
        exfalso. apply Hne. lra.
      * specialize (Hlt t' Ht'). lra.
    + apply desc_cons; [auto|]. intros t' Ht'.
      apply in_insert_desc in Ht' as [->|Ht']; [lra|auto].
Qed.

Lemma thresholds_desc s : desc (thresholds s).
Proof.
  induction s as [|x s IH]; simpl; [constructor|].
  apply insert_desc_desc, IH.
Qed.

Lemma thresholds_covers s : covers (thresholds s) s.
Proof.
  induction s as [|x s IH]; intros y []; simpl.
  - subst y. apply insert_desc_holds.
  - destruct (IH y) as (t & Hin & Heq); [assumption|].
    exists t. split; [apply insert_desc_keeps, Hin|exact Heq].
Qed.

(** Normalising the coordinates scales the area. *)

Lemma trapz_step y0 y1 ys x0 x1 xs :
  trapz (y0 :: y1 :: ys) (x0 :: x1 :: xs)
  = (x1 - x0) * (y1 + y0) / 2 + trapz (y1 :: ys) (x1 :: xs).
Proof. reflexivity. Qed.

Lemma trapz_scale (n p : Z) : n <> 0%Z -> p <> 0%Z -> forall xs ys,
  trapz (map (fun c => inject_Z c / inject_Z p) ys)
        (map (fun c => inject_Z c / inject_Z n) xs)
  == inject_Z (trapz2 ys xs) / (2 * inject_Z n * inject_Z p).
Proof.
  intros Hn Hp.
  assert (Hn' : ~ inject_Z n == 0)
    by (change 0 with (inject_Z 0); rewrite inject_Z_injective; exact Hn).
  assert (Hp' : ~ inject_Z p == 0)
    by (change 0 with (inject_Z 0); rewrite inject_Z_injective; exact Hp).
  assert (H0 : 0 == inject_Z 0 / (2 * inject_Z n * inject_Z p))
    by (field; auto).
  induction xs as [|x0 xs IH]; intros ys.
  - destruct ys as [|y0 [|y1 ys]]; exact H0.
  - destruct ys as [|y0 [|y1 ys]], xs as [|x1 xs]; try exact H0.
    cbn [map]. rewrite trapz_step, trapz2_step.
    specialize (IH (y1 :: ys)). cbn [map] in IH. rewrite IH.
    unfold Z.sub. rewrite inject_Z_plus, inject_Z_mult, !inject_Z_plus, inject_Z_opp.
    field. auto.
Qed.

Lemma scores_of_in lab y_true s x : In x (scores_of lab y_true s) -> In x s.
Proof.
  unfold scores_of. rewrite in_map_iff. intros ([b x'] & <- & H).
  apply List.filter_In in H as [H _]. apply in_combine_r in H. exact H.
Qed.

Lemma pairs2_pairs pos neg :
  pairs2 pos neg = (2 * pairs exceeds pos neg + pairs ties pos neg)%Z.
Proof.
  unfold pairs2, pairs. induction pos as [|x pos IH]; [reflexivity|].
  rewrite !sumZ_cons, IH. lia.
Qed.

Lemma len_nonzero l : l <> [] -> ~ len l == 0.
Proof.
  intros Hl. unfold len. change 0 with (inject_Z 0).
  rewrite inject_Z_injective. destruct l; [congruence|simpl length; lia].
Qed.

(** The area under the ROC curve is the Mann-Whitney statistic. *)
Lemma roc_curve_area y_true s :
  let pos := scores_of true y_true s in
  let neg := scores_of false y_true s in
  pos <> [] -> neg <> [] ->
  auc (fst (roc_curve y_true s)) (snd (roc_curve y_true s))
  == mann_whitney pos neg.
Proof.
  intros pos neg Hpos Hneg. unfold roc_curve, auc. fold pos neg. cbn [fst snd].
  rewrite trapz_scale
    by (destruct pos, neg; simpl length; try congruence; lia).
  assert (H : covers (thresholds s) (pos ++ neg) ->
    trapz2 (0%Z :: map (fun t => count (Qle_bool t) pos) (thresholds s))
           (0%Z :: map (fun t => count (Qle_bool t) neg) (thresholds s))
    = (pairs2 pos neg + 2 * 0 * Z.of_nat (length neg))%Z)
    by exact (curve_area (thresholds s) pos neg 0 0 (thresholds_desc s)).
  rewrite H.
  - rewrite pairs2_pairs. unfold mann_whitney. fold (len pos) (len neg).
    rewrite Z.mul_0_r, Z.mul_0_l, Z.add_0_r, inject_Z_plus, inject_Z_mult.
    pose proof (len_nonzero _ Hpos). pose proof (len_nonzero _ Hneg).
    field. auto.
  - intros x Hx. apply thresholds_covers.
    apply in_app_or in Hx as [Hx|Hx]; eapply scores_of_in; exact Hx.
Qed.

End Area.

(** ** One window of [compute_d_rs] *)

Section Window.
Import sk_metrics compute_abnorm.

Lemma length_invert b : length (np.invert b) = length b.
Proof. apply length_map. Qed.

Lemma take_values v : forall r, length v = length r ->
  np.take v (np.invert (np.isnan v)) = Ok (map (fun p => Fin (fst p)) (kept v r)).
Proof.
  unfold np.take, np.invert, np.isnan. rewrite !length_map, Nat.eqb_refl.
  intros r Hlen. f_equal. revert r Hlen.
  induction v as [|x v IH]; intros [|b r] Hlen; try discriminate; [reflexivity|].
  injection Hlen as Hlen. specialize (IH r Hlen).
  destruct x; unfold kept in *; simpl in *; rewrite IH; reflexivity.
Qed.

Lemma take_flags v : forall r, length v = length r ->
  np.take r (np.invert (np.isnan v)) = Ok (map snd (kept v r)).
Proof.
  unfold np.take, np.invert, np.isnan. intros r Hlen.
  rewrite !length_map, Hlen, Nat.eqb_refl. f_equal. revert r Hlen.
  induction v as [|x v IH]; intros [|b r] Hlen; try discriminate; [reflexivity|].
  injection Hlen as Hlen. specialize (IH r Hlen).
  destruct x; unfold kept in *; simpl in *; rewrite IH; reflexivity.
Qed.

Lemma finite_kept (k : list (Q * bool)) :
  finite (map (fun p => Fin (fst p)) k) = Some (map fst k).
Proof. induction k as [|p k IH]; simpl; [|rewrite IH]; reflexivity. Qed.

Lemma group_values_kept flag v b :
  group_values flag v b
  = map fst (List.filter (fun p => Bool.eqb (snd p) flag) (kept v b)).
Proof.
  unfold group_values, kept. generalize (combine v b) as l.
  induction l as [|[x c] l IH]; [reflexivity|].
  destruct x as [|q]; simpl; [exact IH|].
  destruct (Bool.eqb c flag); simpl; [f_equal|]; exact IH.
Qed.

Lemma scores_of_kept lab (k : list (Q * bool)) :
  scores_of lab (np.invert (map snd k)) (map fst k)
  = map fst (List.filter (fun p => Bool.eqb (snd p) (negb lab)) k).
Proof.
  unfold scores_of, np.invert.
  induction k as [|[q b] k IH]; [reflexivity|].
  simpl. destruct b, lab; simpl; rewrite IH; reflexivity.
Qed.

Lemma sum_spared (k : list (Q * bool)) :
  np.sum (np.invert (map snd k))
  = length (List.filter (fun p => Bool.eqb (snd p) false) k).
Proof.
  unfold np.sum, np.invert.
  induction k as [|[q b] k IH]; [reflexivity|].
  simpl. destruct b; simpl; rewrite IH; reflexivity.
Qed.

Lemma sum_resected (k : list (Q * bool)) :
  np.sum (np.invert (np.invert (map snd k)))
  = length (List.filter (fun p => Bool.eqb (snd p) true) k).
Proof.
  unfold np.sum, np.invert.
  induction k as [|[q b] k IH]; [reflexivity|].
  simpl. destruct b; simpl; rewrite IH; reflexivity.
Qed.

Lemma existsb_spared (k : list (Q * bool)) :
  existsb id (np.invert (map snd k))
  = (0 <? length (List.filter (fun p => Bool.eqb (snd p) false) k))%nat.
Proof.
  unfold np.invert. induction k as [|[q b] k IH]; [reflexivity|].
  simpl. destruct b; simpl; [exact IH|reflexivity].
Qed.

Lemma existsb_resected (k : list (Q * bool)) :
  existsb negb (np.invert (map snd k))
  = (0 <? length (List.filter (fun p => Bool.eqb (snd p) true) k))%nat.
Proof.
  unfold np.invert. induction k as [|[q b] k IH]; [reflexivity|].
  simpl. destruct b; simpl; [reflexivity|exact IH].
Qed.

(** On the entries with a value, the ROC-AUC with the entries whose flag
    is False as the positive class is the Mann-Whitney statistic of the
    two groups. *)
Lemma auc_of_kept v b :
  (0 < length (group_values false v b))%nat ->
  (0 < length (group_values true v b))%nat ->
  roc_auc_score (np.invert (map snd (kept v b)))
                (map (fun p => Fin (fst p)) (kept v b))
  = Ok (Fin (Qred (mann_whitney (group_values false v b)
                                (group_values true v b)))).
Proof.
  rewrite !group_values_kept, !length_map. set (k := kept v b).
  intros Hs Hr. unfold roc_auc_score.
  rewrite length_invert, !length_map, Nat.eqb_refl, finite_kept. cbn [negb].
  rewrite existsb_spared, existsb_resected.
  apply Nat.ltb_lt in Hs as Hs', Hr as Hr'. rewrite Hs', Hr'. cbn [andb].
  destruct (roc_curve _ _) as [fpr tpr] eqn:Hcurve.
  do 2 f_equal. apply Qred_complete.
  change fpr with (fst (fpr, tpr)). change tpr with (snd (fpr, tpr)) at 2.
  rewrite <- Hcurve.
  rewrite roc_curve_area; rewrite !scores_of_kept; cbn [negb].
  - reflexivity.
  - intros H. apply (f_equal length) in H. rewrite length_map in H.
    simpl in H. lia.
  - intros H. apply (f_equal length) in H. rewrite length_map in H.
    simpl in H. lia.
Qed.

(** A window yields the Mann-Whitney statistic of its spared and resected
    values when both exist, and NaN otherwise. *)
Lemma d_rs_window_eq M r i :
  length r = fst (shape M) ->
  d_rs_window M r i = Ok (d_rs_spec M r i).
Proof.
  intros Hlen. unfold d_rs_spec.
  assert (Hcol : length (column M i) = length r)
    by (unfold column; rewrite length_map, length_seq; auto).
  unfold d_rs_window, spared_values, resected_values, roi_values.
  rewrite (take_values _ r Hcol), (take_flags _ r Hcol).
  cbn [mbind result_bind].
  rewrite sum_spared, sum_resected.
  destruct (_ && _) eqn:Hboth.
  - apply andb_prop in Hboth as [Hs Hr].
    rewrite <- (length_map fst), <- group_values_kept in Hs, Hr.
    rewrite Hs, Hr. cbn [andb].
    apply Nat.ltb_lt in Hs, Hr. apply auc_of_kept; assumption.
  - rewrite <- (length_map fst), <- group_values_kept in Hboth.
    rewrite <- (length_map fst (List.filter _ _)), <- group_values_kept in Hboth.
    rewrite Hboth. reflexivity.
Qed.

End Window.

(** ** The loop of [compute_d_rs] *)

Section Loop.
Import compute_abnorm.

(** A loop that stores [g i] at index [i] of an array fills it with [g]. *)
Lemma for_in_fill {A} (f : nat -> result A) (g : nat -> A) (z : A) m :
  forall k,
  (forall i, (k <= i < k + m)%nat -> f i = Ok (g i)) ->
  for_in (seq k m) (fun i d => x ← f i; Ok (<[i := x]> d))
         (map g (seq 0 k) ++ replicate m z)
  = Ok (map g (seq 0 (k + m))).
Proof.
  induction m as [|m IH]; intros k Hf.
  - simpl. rewrite Nat.add_0_r, app_nil_r. reflexivity.
  - cbn [seq for_in]. rewrite Hf by lia. cbn [mbind result_bind].
    rewrite insert_app_r_alt by (rewrite length_map, length_seq; lia).
    rewrite length_map, length_seq, Nat.sub_diag. cbn [replicate].
    change (<[0%nat:=g k]> (z :: replicate m z)) with (g k :: replicate m z).
    replace (map g (seq 0 k) ++ g k :: replicate m z)
      with (map g (seq 0 (S k)) ++ replicate m z).
    + rewrite IH by (intros; apply Hf; lia). do 3 f_equal. lia.
    + rewrite seq_S, map_app, <- app_assoc. reflexivity.
Qed.

Lemma roi_values_flag res M r i q : In q (roi_values res M r i) -> In res r.
Proof.
  unfold roi_values, group_values. rewrite <- !list_elem_of_In, list_elem_of_omap.
  intros ([x b] & Hin & Hf). apply list_elem_of_In, in_combine_r in Hin.
  simpl in Hf. destruct x; [discriminate|].
  destruct (Bool.eqb b res) eqn:Hb; [|discriminate].
  apply eqb_prop in Hb. subst b. apply list_elem_of_In. exact Hin.
Qed.

Lemma sum_zero_none r : np.sum r = 0%nat -> ~ In true r.
Proof.
  unfold np.sum. intros H Hin.
  assert (Hf : In true (List.filter id r)) by (apply List.filter_In; auto).
  destruct (List.filter id r); [exact Hf|discriminate].
Qed.

Lemma sum_invert_zero_none r : np.sum (np.invert r) = 0%nat -> ~ In false r.
Proof.
  intros H Hin. apply (sum_zero_none _ H). unfold np.invert.
  apply in_map_iff. exists false. auto.
Qed.

(** Without a resected or without a spared ROI no window is defined. *)
Lemma d_rs_spec_degenerate M r i :
  np.sum r = 0%nat \/ np.sum (np.invert r) = 0%nat -> d_rs_spec M r i = NaN.
Proof.
  intros H. unfold d_rs_spec, spared_values, resected_values.
  destruct (roi_values false M r i) as [|s S] eqn:HS; [reflexivity|].
  destruct (roi_values true M r i) as [|x R] eqn:HR; [reflexivity|].
  exfalso. destruct H as [H|H].
  - apply (sum_zero_none _ H), (roi_values_flag true M r i x).
    rewrite HR. left. reflexivity.
  - apply (sum_invert_zero_none _ H), (roi_values_flag false M r i s).
    rewrite HS. left. reflexivity.
Qed.

Lemma zeros_times_nan (g : nat -> float) n k :
  (forall i, g i = NaN) ->
  map (fun x => fmul x NaN) (replicate n (Fin 0)) = map g (seq k n).
Proof.
  intros Hg. revert k. induction n as [|n IH]; intros k; [reflexivity|].
  cbn [replicate map seq]. rewrite (IH (S k)), Hg. reflexivity.
Qed.

(** [compute_d_rs] returns, window by window, the value of the contract. *)
Lemma compute_d_rs_eq M r :
  length r = fst (shape M) ->
  compute_d_rs M r = Ok (map (d_rs_spec M r) (seq 0 (snd (shape M)))).
Proof.
  intros Hlen. unfold compute_d_rs. destruct (shape M) as [n_roi n_win] eqn:Hsh.
  cbn [snd]. destruct (_ && _) eqn:Hboth.
  - apply (for_in_fill (d_rs_window M r) (d_rs_spec M r) (Fin 0) n_win 0%nat).
    intros i _. apply d_rs_window_eq. rewrite Hsh. exact Hlen.
  - f_equal. unfold np.zeros.
    assert (Hdeg : np.sum r = 0%nat \/ np.sum (np.invert r) = 0%nat).
    { apply andb_false_iff in Hboth as [H|H]; apply Nat.ltb_ge in H; lia. }
    apply zeros_times_nan. intros i. apply d_rs_spec_degenerate, Hdeg.
Qed.

End Loop.

(** ** Values of the statistic *)

Section Statistic.
Import sk_metrics.





Lemma pairs_const rel S R (c : Z) :
  (forall s, In s S -> count (rel s) R = c) ->
  pairs rel S R = (Z.of_nat (length S) * c)%Z.
Proof.
  unfold pairs. induction S as [|s S IH]; intros H; [simpl; lia|].
  rewrite sumZ_cons, IH by (intros; apply H; right; assumption).
  rewrite H by (left; reflexivity). simpl length. lia.
Qed.

Lemma count_all p l : (forall x, In x l -> p x = true) -> count p l = Z.of_nat (length l).
Proof.
  intros H. rewrite <- count_true. apply count_ext_in. exact H.
Qed.

Lemma count_none p l : (forall x, In x l -> p x = false) -> count p l = 0%Z.
Proof.
  intros H. rewrite (count_ext_in p (fun _ => false)) by exact H.
  clear H. induction l as [|x l IH]; [reflexivity|].
  rewrite count_cons, IH. reflexivity.
Qed.


(** All values tied: the statistic is 1/2. *)
Lemma mann_whitney_tied S R :
  S <> [] -> R <> [] ->
  (forall s r, In s S -> In r R -> r == s) ->
  mann_whitney S R == 1 # 2.
Proof.
  intros HS HR H. unfold mann_whitney.
  rewrite (pairs_const exceeds S R 0),
          (pairs_const ties S R (Z.of_nat (length R))).
  - rewrite Z.mul_0_r, inject_Z_mult. fold (len S) (len R).
    pose proof (len_nonzero _ HS). pose proof (len_nonzero _ HR).
    change (inject_Z 0) with 0. field. auto.
  - intros s Hs. apply count_all. intros r Hr. specialize (H s r Hs Hr). qbool.
  - intros s Hs. apply count_none. intros r Hr. specialize (H s r Hs Hr). qbool.
Qed.


End Statistic.

(** ** The D_RS series *)

Section DRS.
Import compute_abnorm.

Lemma Forall2_in (P : Q -> Q -> Prop) S R :
  Forall (fun s => Forall (fun r => P s r) R) S ->
  forall s r, In s S -> In r R -> P s r.
Proof.
  intros H s r Hs Hr. rewrite List.Forall_forall in H.
  specialize (H s Hs). rewrite List.Forall_forall in H. exact (H r Hr).
Qed.

Lemma lookup_d_rs M r i :
  (i < snd (shape M))%nat ->
  map (d_rs_spec M r) (seq 0 (snd (shape M))) !! i = Some (d_rs_spec M r i).
Proof.
  intros Hi. change (map (d_rs_spec M r)) with (fmap (M:=list) (d_rs_spec M r)).
  rewrite list_lookup_fmap, lookup_seq_lt by exact Hi. reflexivity.
Qed.

Lemma d_rs_spec_defined M r i :
  (0 < length (spared_values M r i))%nat ->
  (0 < length (resected_values M r i))%nat ->
  d_rs_spec M r i
  = Fin (Qred (mann_whitney (spared_values M r i) (resected_values M r i))).
Proof.
  intros HS HR. unfold d_rs_spec.
  apply Nat.ltb_lt in HS, HR. rewrite HS, HR. reflexivity.
Qed.

Lemma nonempty {A} (l : list A) : (0 < length l)%nat -> l <> [].
Proof. destruct l; simpl; [lia|congruence]. Qed.





(** C2.  [compute_d_rs] raises no exception on degenerate input: for a
    matrix and a resection vector with one flag per row it returns a
    vector in which entry [i] is NaN exactly when window [i] has no
    non-missing resected value or no non-missing spared value; when the
    resection vector has no resected or no spared ROI at all, every entry
    is NaN. *)
Theorem compute_d_rs_nan_iff M r :
  length r = fst (shape M) ->
  exists d,
    compute_d_rs M r = Ok d /\
    length d = snd (shape M) /\
    (forall i, (i < snd (shape M))%nat ->
       (d !! i = Some NaN <->
        resected_values M r i = [] \/ spared_values M r i = [])) /\
    (np.sum r = 0%nat \/ np.sum (np.invert r) = 0%nat ->
     d = replicate (snd (shape M)) NaN).
Proof.
  intros Hlen. eexists. split; [apply compute_d_rs_eq, Hlen|].
  split; [rewrite length_map, length_seq; reflexivity|]. split.
  - intros i Hi. rewrite lookup_d_rs by exact Hi. unfold d_rs_spec.
    destruct (spared_values M r i), (resected_values M r i); simpl;
      intuition congruence.
  - intros Hdeg. symmetry. transitivity (map (fun _ : nat => NaN) (seq 0 (snd (shape M)))).
    + generalize 0%nat as k. induction (snd (shape M)) as [|n IH]; intros k;
        [reflexivity|]. simpl. rewrite <- IH. reflexivity.
    + apply map_ext. intros i. symmetry. apply d_rs_spec_degenerate, Hdeg.
Qed.

Lemma compute_d_rs_nan_iff_witness :
  length resect_2_of_4 = fst (shape scenario) /\
  exists d,
    compute_d_rs scenario resect_2_of_4 = Ok d /\
    length d = snd (shape scenario) /\
    (forall i, (i < snd (shape scenario))%nat ->
       (d !! i = Some NaN <->
        resected_values scenario resect_2_of_4 i = [] \/
        spared_values scenario resect_2_of_4 i = [])) /\
    (np.sum resect_2_of_4 = 0%nat \/ np.sum (np.invert resect_2_of_4) = 0%nat ->
     d = replicate (snd (shape scenario)) NaN).
Proof.
  split; [reflexivity|].
  apply (compute_d_rs_nan_iff scenario resect_2_of_4). reflexivity.
Defined.





(** C5.  At a window where all non-missing values are equal across the
    resected and spared groups, both non-empty, [compute_d_rs] yields
    0.5; resected values [3,3] and spared values [3,3] yield 0.5. *)
Theorem compute_d_rs_tied M r i :
  length r = fst (shape M) ->
  (i < snd (shape M))%nat ->
  (0 < length (resected_values M r i))%nat ->
  (0 < length (spared_values M r i))%nat ->
  all_tied (spared_values M r i) (resected_values M r i) ->
  (exists d, compute_d_rs M r = Ok d /\ d !! i = Some (Fin (1 # 2))) /\
  compute_d_rs (one_window 3 3 3 3) resect_2_of_4 = Ok [Fin (1 # 2)].
Proof.
  intros Hlen Hi HR HS Htied. split; [|reflexivity]. eexists.
  split; [apply compute_d_rs_eq, Hlen|].
  rewrite lookup_d_rs, d_rs_spec_defined by assumption.
  do 2 f_equal. change (1 # 2) with (Qred (1 # 2)). apply Qred_complete.
  apply mann_whitney_tied; try (apply nonempty; assumption).
  apply (Forall2_in (fun s r => r == s)). exact Htied.
Qed.

Lemma compute_d_rs_tied_witness :
  length resect_2_of_4 = fst (shape (one_window 3 (6 # 2) 3 3)) /\
  (0 < snd (shape (one_window 3 (6 # 2) 3 3)))%nat /\
  (0 < length (resected_values (one_window 3 (6 # 2) 3 3) resect_2_of_4 0))%nat /\
  (0 < length (spared_values (one_window 3 (6 # 2) 3 3) resect_2_of_4 0))%nat /\
  all_tied (spared_values (one_window 3 (6 # 2) 3 3) resect_2_of_4 0)
           (resected_values (one_window 3 (6 # 2) 3 3) resect_2_of_4 0) /\
  (exists d, compute_d_rs (one_window 3 (6 # 2) 3 3) resect_2_of_4 = Ok d /\
             d !! 0%nat = Some (Fin (1 # 2))) /\
  compute_d_rs (one_window 3 3 3 3) resect_2_of_4 = Ok [Fin (1 # 2)].
Proof.
  assert (H1 : length resect_2_of_4 = fst (shape (one_window 3 (6 # 2) 3 3)))
    by reflexivity.
  assert (H2 : (0 < snd (shape (one_window 3 (6 # 2) 3 3)))%nat)
    by (vm_compute; lia).
  assert (H3 : (0 < length (resected_values (one_window 3 (6 # 2) 3 3) resect_2_of_4 0))%nat)
    by (vm_compute; lia).
  assert (H4 : (0 < length (spared_values (one_window 3 (6 # 2) 3 3) resect_2_of_4 0))%nat)
    by (vm_compute; lia).
  assert (H5 : all_tied (spared_values (one_window 3 (6 # 2) 3 3) resect_2_of_4 0)
                        (resected_values (one_window 3 (6 # 2) 3 3) resect_2_of_4 0))
    by (repeat constructor).
  repeat (split; [assumption|]).
  exact (compute_d_rs_tied (one_window 3 (6 # 2) 3 3) resect_2_of_4 0 H1 H2 H3 H4 H5).
Defined.

End DRS.

(** ** [compute_d_rs] on the heap *)

Section Heap.
Import compute_abnorm compute_abnorm_st.

Variables (roi_data roi_is_resect : ref) (a : array2) (r : list bool).

(** The loop only writes the result array, and writes there what the
    value-level loop computes. *)
Lemma for_st_loop d_rs ixs : forall acc (h : gmap ref object),
  h !! roi_data = Some (Matrix a) ->
  h !! roi_is_resect = Some (Bools r) ->
  h !! d_rs = Some (Floats acc) ->
  (forall i, In i ixs -> (i < length acc)%nat) ->
  exists acc',
    for_st ixs (loop_body roi_data roi_is_resect d_rs) h
    = (done_or_raise
         (for_in ixs (fun i d => x ← d_rs_window a r i; Ok (<[i := x]> d)) acc),
       <[d_rs := Floats acc']> h) /\
    (forall d, for_in ixs (fun i d => x ← d_rs_window a r i; Ok (<[i := x]> d)) acc
               = Ok d -> acc' = d).
Proof.
  induction ixs as [|i ixs IH]; intros acc h Ha Hr Hd Hlt.
  - exists acc. simpl. rewrite insert_id by exact Hd.
    split; [reflexivity|]. intros d [= <-]. reflexivity.
  - cbn [for_st for_in]. unfold mbind at 1, stE_bind.
    unfold loop_body at 1. unfold mbind, stE_bind, load_matrix, load_bools, lift.
    rewrite Ha, Hr. destruct (d_rs_window a r i) as [x|e].
    + unfold store_item. rewrite Hd.
      assert (Hi : (i < length acc)%nat) by (apply Hlt; left; reflexivity).
      apply Nat.ltb_lt in Hi. rewrite Hi. cbn [result_bind].
      assert (Hne1 : d_rs <> roi_data) by congruence.
      assert (Hne2 : d_rs <> roi_is_resect) by congruence.
      destruct (IH (<[i := x]> acc) (<[d_rs := Floats (<[i := x]> acc)]> h))
        as (acc' & Hrun & Hacc).
      * rewrite lookup_insert_ne by exact Hne1. exact Ha.
      * rewrite lookup_insert_ne by exact Hne2. exact Hr.
      * apply lookup_insert_eq.
      * intros j Hj. rewrite length_insert. apply Hlt. right. exact Hj.
      * exists acc'. rewrite Hrun, insert_insert_eq. split; [reflexivity|exact Hacc].
    + exists acc. rewrite insert_id by exact Hd.
      split; [reflexivity|]. intros d [=].
Qed.

(** A call returns what the value-level function computes, in a fresh
    array, and changes no object that existed before. *)
Lemma compute_d_rs_st_spec (h : gmap ref object) :
  h !! roi_data = Some (Matrix a) ->
  h !! roi_is_resect = Some (Bools r) ->
  exists res h',
    compute_d_rs_st roi_data roi_is_resect h = (res, h') /\
    (forall l o, h !! l = Some o -> h' !! l = Some o) /\
    returned res h' = as_object (compute_d_rs a r).
Proof.
  intros Ha Hr. unfold compute_d_rs_st, compute_d_rs.
  unfold mbind at 1, stE_bind, load_matrix. rewrite Ha.
  destruct (shape a) as [n_roi n_win].
  unfold mbind at 1, stE_bind, alloc.
  set (l0 := fresh (dom h)).
  assert (Hl0 : h !! l0 = None) by (apply not_elem_of_dom, is_fresh).
  set (h0 := <[l0 := Floats (np.zeros n_win)]> h).
  assert (Hframe0 : forall l o, h !! l = Some o -> h0 !! l = Some o).
  { intros l o Hl. unfold h0. rewrite lookup_insert_ne by congruence. exact Hl. }
  unfold mbind at 1, stE_bind, load_bools. rewrite (Hframe0 _ _ Hr).
  destruct (_ && _).
  - unfold mbind, stE_bind.
    destruct (for_st_loop l0 (seq 0 n_win) (np.zeros n_win) h0)
      as (acc' & Hrun & Hacc); auto.
    + apply lookup_insert_eq.
    + intros i Hi. apply in_seq in Hi. unfold np.zeros.
      rewrite length_replicate. lia.
    + rewrite Hrun. unfold h0.
      rewrite insert_insert_eq.
      destruct (for_in _ _ _) as [d|e]; simpl.
      * do 2 eexists. split; [reflexivity|]. split.
        -- intros l o Hl. rewrite lookup_insert_ne by congruence. exact Hl.
        -- simpl. rewrite lookup_insert_eq, (Hacc d) by reflexivity. reflexivity.
      * do 2 eexists. split; [reflexivity|]. split; [|reflexivity].
        intros l o Hl. rewrite lookup_insert_ne by congruence. exact Hl.
  - unfold mbind, stE_bind, load_floats, alloc. unfold h0 at 1.
    rewrite lookup_insert_eq.
    set (l1 := fresh (dom h0)).
    assert (Hl1 : h0 !! l1 = None) by (apply not_elem_of_dom, is_fresh).
    do 2 eexists. split; [reflexivity|]. split.
    + intros l o Hl. apply Hframe0 in Hl.
      rewrite lookup_insert_ne by congruence. exact Hl.
    + simpl. rewrite lookup_insert_eq. reflexivity.
Qed.

End Heap.

(** C6.  [compute_d_rs] is deterministic and keeps no hidden state: for
    references to a matrix and a resection vector, two successive calls
    hand back identical results (for one flag per row: two vectors [d],
    the value of the function), and each call leaves its arguments, as
    every array that existed before it, unchanged. *)
Theorem compute_d_rs_deterministic (h : gmap ref object) roi_data roi_is_resect a r :
  h !! roi_data = Some (Matrix a) ->
  h !! roi_is_resect = Some (Bools r) ->
  exists res1 h1 res2 h2,
    compute_abnorm_st.compute_d_rs_st roi_data roi_is_resect h = (res1, h1) /\
    compute_abnorm_st.compute_d_rs_st roi_data roi_is_resect h1 = (res2, h2) /\
    returned res1 h1 = returned res2 h2 /\
    returned res1 h2 = returned res1 h1 /\
    returned res1 h1 = as_object (compute_abnorm.compute_d_rs a r) /\
    (length r = fst (shape a) ->
     exists l1 l2 d, res1 = Ok l1 /\ res2 = Ok l2 /\
       h1 !! l1 = Some (Floats d) /\ h2 !! l2 = Some (Floats d)) /\
    h1 !! roi_data = Some (Matrix a) /\ h1 !! roi_is_resect = Some (Bools r) /\
    h2 !! roi_data = Some (Matrix a) /\ h2 !! roi_is_resect = Some (Bools r) /\
    (forall l o, h !! l = Some o -> h1 !! l = Some o /\ h2 !! l = Some o).
Proof.
  intros Ha Hr.
  destruct (compute_d_rs_st_spec roi_data roi_is_resect a r h Ha Hr)
    as (res1 & h1 & Hrun1 & Hframe1 & Hret1).
  destruct (compute_d_rs_st_spec roi_data roi_is_resect a r h1
              (Hframe1 _ _ Ha) (Hframe1 _ _ Hr))
    as (res2 & h2 & Hrun2 & Hframe2 & Hret2).
  exists res1, h1, res2, h2.
  assert (Hkeep : returned res1 h2 = returned res1 h1).
  { destruct res1 as [l1|e]; [|reflexivity]. simpl in *.
    destruct (compute_abnorm.compute_d_rs a r); simpl in Hret1; [|discriminate].
    injection Hret1 as Hret1. rewrite Hret1, (Hframe2 _ _ Hret1). reflexivity. }
  split; [exact Hrun1|]. split; [exact Hrun2|].
  split; [rewrite Hret1, Hret2; reflexivity|].
  split; [exact Hkeep|]. split; [exact Hret1|].
  split.
  { intros Hlen. rewrite (compute_d_rs_eq a r Hlen) in Hret1, Hret2.
    destruct res1 as [l1|]; [|discriminate].
    destruct res2 as [l2|]; [|discriminate].
    simpl in Hret1, Hret2. exists l1, l2. eexists.
    split; [reflexivity|]. split; [reflexivity|].
    split; [injection Hret1 as ->|injection Hret2 as ->]; reflexivity. }
  split; [exact (Hframe1 _ _ Ha)|]. split; [exact (Hframe1 _ _ Hr)|].
  split; [exact (Hframe2 _ _ (Hframe1 _ _ Ha))|].
  split; [exact (Hframe2 _ _ (Hframe1 _ _ Hr))|].
  intros l o Hl. split; [exact (Hframe1 _ _ Hl)|exact (Hframe2 _ _ (Hframe1 _ _ Hl))].
Qed.

Lemma compute_d_rs_deterministic_witness :
  scenario_heap !! 0%nat = Some (Matrix scenario) /\
  scenario_heap !! 1%nat = Some (Bools resect_2_of_4) /\
  exists res1 h1 res2 h2,
    compute_abnorm_st.compute_d_rs_st 0%nat 1%nat scenario_heap = (res1, h1) /\
    compute_abnorm_st.compute_d_rs_st 0%nat 1%nat h1 = (res2, h2) /\
    returned res1 h1 = returned res2 h2 /\
    returned res1 h2 = returned res1 h1 /\
    returned res1 h1
      = as_object (compute_abnorm.compute_d_rs scenario resect_2_of_4) /\
    (length resect_2_of_4 = fst (shape scenario) ->
     exists l1 l2 d, res1 = Ok l1 /\ res2 = Ok l2 /\
       h1 !! l1 = Some (Floats d) /\ h2 !! l2 = Some (Floats d)) /\
    h1 !! 0%nat = Some (Matrix scenario) /\
    h1 !! 1%nat = Some (Bools resect_2_of_4) /\
    h2 !! 0%nat = Some (Matrix scenario) /\
    h2 !! 1%nat = Some (Bools resect_2_of_4) /\
    (forall l o, scenario_heap !! l = Some o -> h1 !! l = Some o /\ h2 !! l = Some o).
Proof.
  assert (H0 : scenario_heap !! 0%nat = Some (Matrix scenario)) by reflexivity.
  assert (H1 : scenario_heap !! 1%nat = Some (Bools resect_2_of_4)) by reflexivity.
  split; [exact H0|]. split; [exact H1|].
  exact (compute_d_rs_deterministic scenario_heap 0%nat 1%nat scenario
           resect_2_of_4 H0 H1).
Defined.

(** ** The validation of the time axis *)

Ltac run_io :=
  unfold mbind, stE_bind, mret, stE_ret, lift, draw, raise; cbn [fst snd].

Section TimeAxis.
Import vis_abnorm.











End TimeAxis.

(** ** Sorting *)

Section Sorting.

Variable before : Z -> Z -> bool.
Hypothesis before_le : forall x y, before x y = true -> (x <= y)%Z.
Hypothesis not_before_ge : forall x y, before x y = false -> (y <= x)%Z.










End Sorting.





(** ** The outcome classification *)

Section Outcome.
Import vis_abnorm.

Lemma take_group (k : list (Q * bool)) flag :
  np.take (map (fun p => Fin (fst p)) k)
          (map (fun p => Bool.eqb (snd p) flag) k)
  = Ok (map Fin (map fst (List.filter (fun p => Bool.eqb (snd p) flag) k))).
Proof.
  unfold np.take. rewrite !length_map, Nat.eqb_refl. f_equal.
  induction k as [|[q b] k IH]; [reflexivity|].
  simpl. destruct (Bool.eqb b flag); simpl; rewrite IH; reflexivity.
Qed.

Lemma flags_true (k : list (Q * bool)) :
  np.invert (np.invert (map snd k)) = map (fun p => Bool.eqb (snd p) true) k.
Proof.
  unfold np.invert. rewrite !map_map. apply map_ext.
  intros [q []]; reflexivity.
Qed.

Lemma flags_false (k : list (Q * bool)) :
  np.invert (map snd k) = map (fun p => Bool.eqb (snd p) false) k.
Proof.
  unfold np.invert. rewrite !map_map. apply map_ext.
  intros [q []]; reflexivity.
Qed.




End Outcome.

(** ** The order of the patients *)

Section Order.
Import scripts.


















End Order.

(** ** The directories *)

Section Paths.
Import common.




End Paths.

(* ================================================================== *)
(** * Further properties of the code *)

(** ** compute_d_rs: symmetry, locality, invariance, exceptions *)

Section MoreDRS.
Import sk_metrics compute_abnorm.













(** X2.  A window of D_RS depends on its column only: two matrices with
    the same column [i] (whatever their other windows hold, missing values
    included) have the same entry [i]. *)
Theorem compute_d_rs_window_local M M' r i :
  length r = fst (shape M) ->
  length r = fst (shape M') ->
  (i < snd (shape M))%nat ->
  (i < snd (shape M'))%nat ->
  column M i = column M' i ->
  exists d d',
    compute_d_rs M r = Ok d /\ compute_d_rs M' r = Ok d' /\
    d !! i = d' !! i.
Proof.
  intros Hlen Hlen' Hi Hi' Hcol. do 2 eexists.
  split; [apply compute_d_rs_eq, Hlen|].
  split; [apply compute_d_rs_eq, Hlen'|].
  rewrite !lookup_d_rs by assumption.
  unfold d_rs_spec, spared_values, resected_values, roi_values.
  rewrite Hcol. reflexivity.
Qed.

Lemma compute_d_rs_window_local_witness :
  length resect_2_of_4 = fst (shape scenario) /\
  length resect_2_of_4 = fst (shape (one_window 1 2 5 6)) /\
  (0 < snd (shape scenario))%nat /\
  (0 < snd (shape (one_window 1 2 5 6)))%nat /\
  column scenario 0 = column (one_window 1 2 5 6) 0 /\
  exists d d',
    compute_d_rs scenario resect_2_of_4 = Ok d /\
    compute_d_rs (one_window 1 2 5 6) resect_2_of_4 = Ok d' /\
    d !! 0%nat = d' !! 0%nat.
Proof.
  assert (H1 : length resect_2_of_4 = fst (shape scenario)) by reflexivity.
  assert (H2 : length resect_2_of_4 = fst (shape (one_window 1 2 5 6)))
    by reflexivity.
  assert (H3 : (0 < snd (shape scenario))%nat) by (vm_compute; lia).
  assert (H4 : (0 < snd (shape (one_window 1 2 5 6)))%nat) by (vm_compute; lia).
  assert (H5 : column scenario 0 = column (one_window 1 2 5 6) 0) by reflexivity.
  repeat (split; [assumption|]).
  exact (compute_d_rs_window_local scenario (one_window 1 2 5 6) resect_2_of_4
           0 H1 H2 H3 H4 H5).
Defined.

Lemma count_map (p : Q -> bool) (g : Q -> Q) l :
  count p (map g l) = count (fun x => p (g x)) l.
Proof.
  induction l as [|x l IH]; [reflexivity|].
  simpl map. rewrite !count_cons, IH. reflexivity.
Qed.

Lemma pairs_map rel (g : Q -> Q) S R :
  (forall s r, rel (g s) (g r) = rel s r) ->
  pairs rel (map g S) (map g R) = pairs rel S R.
Proof.
  intros Hrel. unfold pairs. induction S as [|s S IH]; [reflexivity|].
  simpl map. rewrite !sumZ_cons, IH, count_map. f_equal.
  apply count_ext_in. intros r _. apply Hrel.
Qed.

Lemma mann_whitney_map (g : Q -> Q) S R :
  (forall x y, x < y <-> g x < g y) ->
  mann_whitney (map g S) (map g R) = mann_whitney S R.
Proof.
  intros Hg. unfold mann_whitney, len. rewrite !length_map.
  rewrite !pairs_map; [reflexivity| |].
  - intros s r. unfold ties.
    destruct (Qeq_bool_spec (g r) (g s)) as [H|H],
             (Qeq_bool_spec r s) as [H'|H']; try reflexivity; exfalso.
    + destruct (Q_dec r s) as [[Hlt|Hlt]|Heq]; [| |contradiction];
        apply (proj1 (Hg _ _)) in Hlt; lra.
    + destruct (Q_dec (g r) (g s)) as [[Hlt|Hlt]|Heq]; [| |contradiction];
        apply (proj2 (Hg _ _)) in Hlt; lra.
  - intros s r. unfold exceeds.
    destruct (Qlt_bool_spec (g r) (g s)) as [H|H],
             (Qlt_bool_spec r s) as [H'|H']; try reflexivity; exfalso.
    + apply H', (proj2 (Hg _ _)), H.
    + apply H, (proj1 (Hg _ _)), H'.
Qed.

Lemma column_map_windows f M i :
  column (map_windows f M) i
  = map (fun x => match x with NaN => NaN | Fin q => Fin (f i q) end)
        (column M i).
Proof. unfold column. simpl. rewrite map_map. reflexivity. Qed.

Lemma group_values_map (g : Q -> Q) flag v r :
  group_values flag
    (map (fun x => match x with NaN => NaN | Fin q => Fin (g q) end) v) r
  = map g (group_values flag v r).
Proof.
  unfold group_values. revert r.
  induction v as [|x v IH]; intros [|b r]; try reflexivity.
  simpl. rewrite IH. destruct x; [reflexivity|]. simpl.
  destruct (Bool.eqb b flag); reflexivity.
Qed.

(** X3.  D_RS depends on the order of the values only: transforming the
    values of each window by a strictly increasing function (a positive
    rescaling, such as the division of a window by its positive sum)
    leaves the output of [compute_d_rs] unchanged. *)
Theorem compute_d_rs_rank_invariant f M r :
  increasing f ->
  length r = fst (shape M) ->
  compute_d_rs (map_windows f M) r = compute_d_rs M r.
Proof.
  intros Hf Hlen. rewrite !compute_d_rs_eq by exact Hlen.
  f_equal. apply map_ext. intros i.
  unfold d_rs_spec, spared_values, resected_values, roi_values.
  rewrite column_map_windows, !group_values_map, !length_map.
  rewrite mann_whitney_map by apply Hf. reflexivity.
Qed.

Lemma compute_d_rs_rank_invariant_witness :
  increasing (fun i x => x / 14 + inject_Z (Z.of_nat i)) /\
  length resect_2_of_4 = fst (shape scenario) /\
  compute_d_rs
    (map_windows (fun i x => x / 14 + inject_Z (Z.of_nat i)) scenario)
    resect_2_of_4
  = compute_d_rs scenario resect_2_of_4.
Proof.
  assert (H1 : increasing (fun i x => x / 14 + inject_Z (Z.of_nat i))).
  { intros i x y. unfold Qdiv. split; intros H.
    - apply Qplus_lt_le_compat; [|apply Qle_refl].
      apply Qmult_lt_compat_r; [reflexivity|exact H].
    - apply Qplus_lt_l in H. apply Qmult_lt_r in H; [exact H|reflexivity]. }
  assert (H2 : length resect_2_of_4 = fst (shape scenario)) by reflexivity.
  split; [exact H1|]. split; [exact H2|].
  exact (compute_d_rs_rank_invariant _ scenario resect_2_of_4 H1 H2).
Defined.

Lemma d_rs_window_mismatch M r i :
  length r <> fst (shape M) -> d_rs_window M r i = Raise IndexError.
Proof.
  intros Hlen. unfold d_rs_window, np.take.
  rewrite !length_invert. unfold np.isnan. rewrite !length_map, Nat.eqb_refl.
  cbn [mbind result_bind]. unfold column. rewrite length_map, length_seq.
  destruct (Nat.eqb_spec (length r) (fst (shape M))); [contradiction|].
  reflexivity.
Qed.

(** X4.  The only exception of [compute_d_rs] is IndexError, raised
    exactly when the resection vector holds both classes, there is at
    least one window, and the vector does not have one flag per row.  In
    particular the guard on the classes keeps the ValueError of
    [roc_auc_score] out of reach. *)
Theorem compute_d_rs_exceptions M r :
  (compute_d_rs M r = Raise IndexError <->
   length r <> fst (shape M) /\ both_classes r = true /\
   (0 < snd (shape M))%nat) /\
  (forall e, compute_d_rs M r = Raise e -> e = IndexError).
Proof.
  destruct (Nat.eq_dec (length r) (fst (shape M))) as [Hlen|Hlen].
  - rewrite (compute_d_rs_eq M r Hlen). split.
    + split; [discriminate|]. intros [H _]. contradiction.
    + discriminate.
  - unfold compute_d_rs, both_classes.
    destruct (shape M) as [n_roi n_win] eqn:Hsh. cbn [fst snd] in *.
    destruct (_ && _).
    + destruct n_win as [|n].
      * simpl. split; [|discriminate].
        split; [discriminate|]. intros (_ & _ & H). lia.
      * cbn [seq for_in]. rewrite d_rs_window_mismatch by (rewrite Hsh; exact Hlen).
        cbn [mbind result_bind]. split.
        -- split; [intros _; repeat split; [exact Hlen|lia]|reflexivity].
        -- intros e [= <-]. reflexivity.
    + split; [|discriminate].
      split; [discriminate|]. intros (_ & H & _). discriminate.
Qed.




End MoreDRS.

(** ** compute_d_rs on the heap: the result is a new array *)

Section MoreHeap.
Import compute_abnorm compute_abnorm_st.

Lemma compute_d_rs_st_alloc roi_data roi_is_resect a r (h : gmap ref object) :
  h !! roi_data = Some (Matrix a) ->
  h !! roi_is_resect = Some (Bools r) ->
  forall l h',
    compute_d_rs_st roi_data roi_is_resect h = (Ok l, h') -> h !! l = None.
Proof.
  intros Ha Hr l h'. unfold compute_d_rs_st.
  unfold mbind at 1, stE_bind, load_matrix. rewrite Ha.
  destruct (shape a) as [n_roi n_win].
  unfold mbind at 1, stE_bind, alloc.
  set (l0 := fresh (dom h)).
  assert (Hl0 : h !! l0 = None) by (apply not_elem_of_dom, is_fresh).
  set (h0 := <[l0 := Floats (np.zeros n_win)]> h).
  assert (Hframe0 : forall k o, h !! k = Some o -> h0 !! k = Some o).
  { intros k o Hk. unfold h0. rewrite lookup_insert_ne by congruence. exact Hk. }
  unfold mbind at 1, stE_bind, load_bools. rewrite (Hframe0 _ _ Hr).
  destruct (_ && _).
  - unfold mbind, stE_bind.
    destruct (for_st_loop roi_data roi_is_resect a r l0 (seq 0 n_win)
                (np.zeros n_win) h0) as (acc' & Hrun & _); auto.
    + apply lookup_insert_eq.
    + intros i Hi. apply in_seq in Hi. unfold np.zeros.
      rewrite length_replicate. lia.
    + rewrite Hrun. destruct (for_in _ _ _); simpl; [|discriminate].
      unfold mret, stE_ret. intros [= <- _]. exact Hl0.
  - unfold mbind, stE_bind, load_floats, alloc. unfold h0 at 1.
    rewrite lookup_insert_eq. intros [= <- _].
    assert (H : h0 !! fresh (dom h0) = None) by (apply not_elem_of_dom, is_fresh).
    destruct (h !! fresh (dom h0)) as [o|] eqn:Hh; [|reflexivity].
    apply Hframe0 in Hh. congruence.
Qed.

(** X6.  The vector [compute_d_rs] returns is a new array: for references
    to a matrix and to a resection vector with one flag per row, the call
    returns a reference that did not exist before the call, so the result
    aliases neither argument nor any other array of the caller. *)
Theorem compute_d_rs_st_fresh (h : gmap ref object) roi_data roi_is_resect a r :
  h !! roi_data = Some (Matrix a) ->
  h !! roi_is_resect = Some (Bools r) ->
  length r = fst (shape a) ->
  exists l h' d,
    compute_d_rs_st roi_data roi_is_resect h = (Ok l, h') /\
    h' !! l = Some (Floats d) /\
    h !! l = None /\ l <> roi_data /\ l <> roi_is_resect.
Proof.
  intros Ha Hr Hlen.
  destruct (compute_d_rs_st_spec roi_data roi_is_resect a r h Ha Hr)
    as (res & h' & Hrun & _ & Hret).
  rewrite (compute_d_rs_eq a r Hlen) in Hret.
  destruct res as [l|]; [|discriminate]. simpl in Hret. injection Hret as Hret.
  pose proof (compute_d_rs_st_alloc roi_data roi_is_resect a r h Ha Hr l h' Hrun)
    as Hnew.
  exists l, h'. eexists. split; [exact Hrun|]. split; [exact Hret|].
  split; [exact Hnew|]. split; congruence.
Qed.

Lemma compute_d_rs_st_fresh_witness :
  scenario_heap !! 0%nat = Some (Matrix scenario) /\
  scenario_heap !! 1%nat = Some (Bools resect_2_of_4) /\
  length resect_2_of_4 = fst (shape scenario) /\
  exists l h' d,
    compute_d_rs_st 0%nat 1%nat scenario_heap = (Ok l, h') /\
    h' !! l = Some (Floats d) /\
    scenario_heap !! l = None /\ l <> 0%nat /\ l <> 1%nat.
Proof.
  assert (H0 : scenario_heap !! 0%nat = Some (Matrix scenario)) by reflexivity.
  assert (H1 : scenario_heap !! 1%nat = Some (Bools resect_2_of_4)) by reflexivity.
  assert (H2 : length resect_2_of_4 = fst (shape scenario)) by reflexivity.
  repeat (split; [assumption|]).
  exact (compute_d_rs_st_fresh scenario_heap 0%nat 1%nat scenario resect_2_of_4
           H0 H1 H2).
Defined.

End MoreHeap.

(** ** The plotting functions: ticks, rows and edge cases *)

Section MoreVis.
Import vis_abnorm.
























End MoreVis.

Section MoreOutcome.
Import sk_metrics vis_abnorm.

Lemma kept_groups v b :
  length (kept v b)
  = (length (group_values true v b) + length (group_values false v b))%nat.
Proof.
  rewrite !group_values_kept, !length_map.
  induction (kept v b) as [|[q []] k IH]; simpl; lia.
Qed.

Lemma roc_auc_one_class (k : list (Q * bool)) :
  length (List.filter (fun p => Bool.eqb (snd p) false) k) = 0%nat \/
  length (List.filter (fun p => Bool.eqb (snd p) true) k) = 0%nat ->
  roc_auc_score (np.invert (map snd k)) (map (fun p => Fin (fst p)) k)
  = Raise ValueError.
Proof.
  intros H. unfold roc_auc_score.
  rewrite length_invert, !length_map, Nat.eqb_refl, finite_kept. cbn [negb].
  rewrite existsb_spared, existsb_resected.
  destruct H as [-> | ->]; simpl; [|rewrite andb_false_r]; reflexivity.
Qed.

Lemma take_mismatch (good_outcome : list bool) (pnt_meas : list float) :
  length good_outcome <> length pnt_meas ->
  np.take good_outcome (np.invert (np.isnan pnt_meas)) = Raise IndexError.
Proof.
  intros H. unfold np.take, np.invert, np.isnan. rewrite !length_map.
  apply Nat.eqb_neq in H. rewrite H. reflexivity.
Qed.

Lemma take_self (pnt_meas : list float) :
  exists m, np.take pnt_meas (np.invert (np.isnan pnt_meas)) = Ok m.
Proof.
  unfold np.take, np.invert, np.isnan. rewrite !length_map, Nat.eqb_refl. eauto.
Qed.

(** X13.  The exceptions of [plot_outcome_auc].  It raises IndexError
    exactly when the outcome and measure vectors differ in length, and
    then nothing has been printed or drawn; it raises ValueError exactly
    when the vectors have the same length and the patients with a measure
    are of one outcome class only; it raises nothing else. *)
Theorem plot_outcome_auc_exceptions good_outcome pnt_meas ylim meas_name
    meas_ref p_side overlay_violin w :
  let run := plot_outcome_auc good_outcome pnt_meas ylim meas_name meas_ref
                              p_side overlay_violin w in
  let n_good := length (group_values true pnt_meas good_outcome) in
  let n_poor := length (group_values false pnt_meas good_outcome) in
  (fst run = Raise IndexError <-> length good_outcome <> length pnt_meas) /\
  (length good_outcome <> length pnt_meas -> snd run = w) /\
  (fst run = Raise ValueError <->
   length good_outcome = length pnt_meas /\
   ((n_good = 0 /\ 0 < n_poor) \/ (0 < n_good /\ n_poor = 0))%nat) /\
  (forall e, fst run = Raise e -> e = IndexError \/ e = ValueError).
Proof.
  intros run n_good n_poor. subst run.
  destruct (Nat.eq_dec (length good_outcome) (length pnt_meas)) as [Hlen|Hlen].
  - symmetry in Hlen.
    pose proof (kept_groups pnt_meas good_outcome) as Hk.
    fold n_good n_poor in Hk.
    assert (Hrun : fst (plot_outcome_auc good_outcome pnt_meas ylim meas_name
                          meas_ref p_side overlay_violin w)
                   = if (0 <? n_good + n_poor)%nat
                     then if ((0 <? n_good) && (0 <? n_poor))%nat
                          then Ok (Fin (Qred (mann_whitney
                                 (group_values false pnt_meas good_outcome)
                                 (group_values true pnt_meas good_outcome))),
                                   ranksums
                                     (map Fin (group_values true pnt_meas good_outcome))
                                     (map Fin (group_values false pnt_meas good_outcome))
                                     p_side)
                          else Raise ValueError
                     else Ok (NaN, p_nan)).
    { unfold plot_outcome_auc. run_io.
      rewrite (take_values _ _ Hlen), (take_flags _ _ Hlen).
      unfold print. cbn [fst snd]. rewrite length_map, Hk.
      destruct (0 <? n_good + n_poor)%nat eqn:Hany; [|reflexivity].
      destruct (Nat.ltb_spec 0 n_good) as [Hg|Hg];
        destruct (Nat.ltb_spec 0 n_poor) as [Hp|Hp]; cbn [andb].
      - rewrite (auc_of_kept _ _ Hp Hg).
        rewrite flags_true, take_group, flags_false, take_group.
        rewrite <- !group_values_kept. destruct overlay_violin; reflexivity.
      - rewrite roc_auc_one_class; [reflexivity|].
        left. unfold n_poor in Hp. rewrite group_values_kept, length_map in Hp. lia.
      - rewrite roc_auc_one_class; [reflexivity|].
        right. unfold n_good in Hg. rewrite group_values_kept, length_map in Hg. lia.
      - rewrite roc_auc_one_class; [reflexivity|].
        right. unfold n_good in Hg. rewrite group_values_kept, length_map in Hg. lia. }
    rewrite Hrun.
    destruct (Nat.ltb_spec 0 (n_good + n_poor)) as [Hany|Hany];
      [destruct (Nat.ltb_spec 0 n_good) as [Hg|Hg];
       destruct (Nat.ltb_spec 0 n_poor) as [Hp|Hp]; cbn [andb]|];
      (split; [split; [discriminate|intros H; exfalso; apply H; symmetry; exact Hlen]|]);
      (split; [intros H; exfalso; apply H; symmetry; exact Hlen|]);
      (split; [split; [first [discriminate
                             |intros _; split; [symmetry; exact Hlen|lia]]
                      |try reflexivity; intros [_ H]; lia]|]);
      intros e He; try discriminate He; injection He as <-; right; reflexivity.
  - destruct (take_self pnt_meas) as [m Hm].
    assert (Hrun : plot_outcome_auc good_outcome pnt_meas ylim meas_name
                     meas_ref p_side overlay_violin w = (Raise IndexError, w)).
    { unfold plot_outcome_auc. run_io. rewrite Hm, (take_mismatch _ _ Hlen).
      reflexivity. }
    rewrite Hrun. cbn [fst snd].
    split; [split; [intros _; exact Hlen|reflexivity]|].
    split; [reflexivity|].
    split; [split; [discriminate|intros [H _]; contradiction]|].
    intros e [= <-]. left. reflexivity.
Qed.

Lemma kept_all_nan v b : Forall (fun x => x = NaN) v -> kept v b = [].
Proof.
  intros H. revert b. induction H as [|x v -> _ IH]; intros [|c b];
    try reflexivity. unfold kept in *. simpl. apply IH.
Qed.

Lemma sum_isnan_all v :
  Forall (fun x => x = NaN) v -> np.sum (np.isnan v) = length v.
Proof.
  unfold np.sum, np.isnan. induction 1 as [|x v -> _ IH]; [reflexivity|].
  simpl. rewrite IH. reflexivity.
Qed.

(** X14.  When no patient has a measure (every entry is NaN, or the
    cohort is empty), [plot_outcome_auc] returns NaN for the AUC and for
    the p-value without calling the library: it reports all patients as
    removed and draws the limits, the reference line, the title with
    [n = 0] and the axis labels, but no violin and no swarm. *)
Theorem plot_outcome_auc_no_measure good_outcome pnt_meas ylim meas_name
    meas_ref p_side overlay_violin w :
  length pnt_meas = length good_outcome ->
  Forall (fun x => x = NaN) pnt_meas ->
  plot_outcome_auc good_outcome pnt_meas ylim meas_name meas_ref p_side
                   overlay_violin w
  = (Ok (NaN, p_nan),
     World (stdout w ++ ["removed " +:+ pretty (length pnt_meas)
                         +:+ " patients due to NaN measure"])
           (axes w ++ [Ylim (fst ylim) (snd ylim); Axhline meas_ref;
                       Title_auc meas_name NaN p_nan p_side 0;
                       Ylabel meas_name; Xlabel "surgical outcome"])
           (files w)).
Proof.
  intros Hlen Hnan. unfold plot_outcome_auc. run_io.
  rewrite (take_values _ _ Hlen), (take_flags _ _ Hlen).
  rewrite (kept_all_nan _ _ Hnan), (sum_isnan_all _ Hnan).
  unfold print. cbn. rewrite <- !app_assoc. reflexivity.
Qed.

Lemma plot_outcome_auc_no_measure_witness :
  plot_outcome_auc [true; false] [NaN; NaN] (0, 1) "$D_{RS}$" (1 # 2) less
                   true empty_world
  = (Ok (NaN, p_nan),
     World ([] ++ ["removed " +:+ pretty (length [NaN; NaN])
                   +:+ " patients due to NaN measure"])
           ([] ++ [Ylim (fst (0, 1)) (snd (0, 1)); Axhline (1 # 2);
                   Title_auc "$D_{RS}$" NaN p_nan less 0;
                   Ylabel "$D_{RS}$"; Xlabel "surgical outcome"])
           ∅).
Proof.
  apply (plot_outcome_auc_no_measure [true; false] [NaN; NaN] (0, 1) "$D_{RS}$"
           (1 # 2) less true empty_world).
  - reflexivity.
  - repeat constructor.
Defined.

Lemma kept_idem v b :
  kept (map (fun p => Fin (fst p)) (kept v b)) (map snd (kept v b)) = kept v b.
Proof.
  generalize (kept v b) as k. unfold kept.
  induction k as [|[q c] k IH]; [reflexivity|]. simpl. f_equal. exact IH.
Qed.

(** X15.  The patients without a measure have no influence on what
    [plot_outcome_auc] computes and draws: the call returns (or raises)
    and draws the same as a call on the cohort from which the NaN entries
    have been removed beforehand.  Only the printed count differs. *)
Theorem plot_outcome_auc_ignores_nan good_outcome pnt_meas ylim meas_name
    meas_ref p_side overlay_violin w :
  length pnt_meas = length good_outcome ->
  let measured := kept pnt_meas good_outcome in
  let run := plot_outcome_auc good_outcome pnt_meas ylim meas_name meas_ref
                              p_side overlay_violin w in
  let run' := plot_outcome_auc (map snd measured)
                               (map (fun p => Fin (fst p)) measured)
                               ylim meas_name meas_ref p_side overlay_violin w in
  fst run = fst run' /\ axes (snd run) = axes (snd run') /\
  files (snd run) = files (snd run').
Proof.
  intros Hlen measured run run'. subst run run'.
  assert (Hlen' : length (map (fun p : Q * bool => Fin (fst p)) measured)
                  = length (map snd measured))
    by (rewrite !length_map; reflexivity).
  unfold plot_outcome_auc. run_io.
  rewrite (take_values _ _ Hlen'), (take_flags _ _ Hlen').
  rewrite (take_values _ _ Hlen), (take_flags _ _ Hlen).
  unfold measured. rewrite kept_idem. fold measured.
  unfold print. cbn [fst snd stdout axes files].
  destruct (0 <? length (map (fun p : Q * bool => Fin (fst p)) measured))%nat;
    [|repeat split; reflexivity].
  destruct (roc_auc_score _ _); [|repeat split; reflexivity].
  cbn [fst snd stdout axes files].
  destruct (np.take _ (np.invert (np.invert _))); [|repeat split; reflexivity].
  cbn [fst snd stdout axes files].
  destruct (np.take _ (np.invert _)); [|repeat split; reflexivity].
  destruct overlay_violin; repeat split; reflexivity.
Qed.

Lemma plot_outcome_auc_ignores_nan_witness :
  let measured := kept four_measures four_outcomes in
  let run := plot_outcome_auc four_outcomes four_measures (0, 1) "$D_{RS}$"
                              (1 # 2) less true empty_world in
  let run' := plot_outcome_auc (map snd measured)
                               (map (fun p => Fin (fst p)) measured)
                               (0, 1) "$D_{RS}$" (1 # 2) less true empty_world in
  fst run = fst run' /\ axes (snd run) = axes (snd run') /\
  files (snd run) = files (snd run').
Proof.
  apply (plot_outcome_auc_ignores_nan four_outcomes four_measures (0, 1)
           "$D_{RS}$" (1 # 2) less true empty_world).
  reflexivity.
Defined.

End MoreOutcome.

(** ** Loading the variables of a patient file *)

Section MoreLoad.
Context {V : Type}.
Implicit Types (d m : gmap string V) (args : list string).

Lemma keep_variable_error d args k :
  fold_left (keep_variable d) args (KeyError k) = KeyError k.
Proof. induction args as [|a args IH]; [reflexivity|exact IH]. Qed.

Lemma keep_variables_found d args : forall m,
  (forall k, In k args -> is_Some (d !! k)) ->
  exists m',
    fold_left (keep_variable d) args (Loaded m) = Loaded m' /\
    forall k, m' !! k = if decide (k ∈ args) then d !! k else m !! k.
Proof.
  induction args as [|a args IH]; intros m Hall.
  - exists m. split; [reflexivity|]. intros k.
    destruct (decide (k ∈ [])) as [H|_]; [|reflexivity].
    apply elem_of_nil in H. contradiction.
  - destruct (Hall a) as [v Hv]; [left; reflexivity|].
    destruct (IH (<[a := v]> m)) as (m' & Hrun & Hm');
      [intros k Hk; apply Hall; right; exact Hk|].
    exists m'. split; [simpl; rewrite Hv; exact Hrun|].
    intros k. rewrite Hm'.
    destruct (decide (k ∈ args)) as [Hin|Hnin].
    + rewrite decide_True by (right; exact Hin). reflexivity.
    + destruct (decide (k = a)) as [->|Hne].
      * rewrite decide_True by left. rewrite lookup_insert_eq. symmetry; exact Hv.
      * rewrite lookup_insert_ne by congruence.
        rewrite decide_False; [reflexivity|].
        intros H. apply elem_of_cons in H as [H|H]; contradiction.
Qed.

Lemma keep_variables_missing d args k : forall m,
  fold_left (keep_variable d) args (Loaded m) = KeyError k <->
  exists before after,
    args = before ++ k :: after /\ d !! k = None /\
    forall k', In k' before -> is_Some (d !! k').
Proof.
  induction args as [|a args IH]; intros m.
  - split; [discriminate|]. intros (before & after & H & _).
    destruct before; discriminate H.
  - simpl. destruct (d !! a) as [v|] eqn:Ha.
    + rewrite IH. split.
      * intros (before & after & -> & Hk & Hbefore).
        exists (a :: before), after. split; [reflexivity|]. split; [exact Hk|].
        intros k' [<-|Hk']; [rewrite Ha; eauto|apply Hbefore, Hk'].
      * intros (before & after & Heq & Hk & Hbefore).
        destruct before as [|b before].
        -- injection Heq as -> _. congruence.
        -- injection Heq as -> ->. exists before, after.
           split; [reflexivity|]. split; [exact Hk|].
           intros k' Hk'. apply Hbefore. right. exact Hk'.
    + rewrite keep_variable_error. split.
      * intros [= ->]. exists [], args. split; [reflexivity|].
        split; [exact Ha|]. intros k' [].
      * intros (before & after & Heq & Hk & Hbefore).
        destruct before as [|b before].
        -- injection Heq as -> _. reflexivity.
        -- injection Heq as -> _.
           destruct (Hbefore b) as [v Hv]; [left; reflexivity|]. congruence.
Qed.

(** X16.  Asked for variables that the file all holds,
    [mat_load_as_dict] returns a dictionary with exactly the variables
    asked for, each with the value it has in the file; the other variables
    of the file (and the header entries of [loadmat]) are left out. *)
Theorem mat_load_as_dict_selects d args :
  args <> [] ->
  (forall k, In k args -> is_Some (d !! k)) ->
  exists mat_dict,
    mat_load_as_dict d args = Loaded mat_dict /\
    forall k, mat_dict !! k = if decide (k ∈ args) then d !! k else None.
Proof.
  intros Hne Hall.
  destruct (keep_variables_found d args ∅ Hall) as (m' & Hrun & Hm').
  exists m'. split.
  - destruct args; [contradiction|exact Hrun].
  - intros k. rewrite Hm'. destruct (decide (k ∈ args)); [reflexivity|].
    apply lookup_empty.
Qed.

(** X17.  [mat_load_as_dict] raises KeyError exactly when a variable asked
    for is not in the file, and the error names the first such variable
    in the order of the arguments; asked for nothing, it never raises. *)
Theorem mat_load_as_dict_missing d args k :
  mat_load_as_dict d args = KeyError k <->
  exists before after,
    args = before ++ k :: after /\ d !! k = None /\
    forall k', In k' before -> is_Some (d !! k').
Proof.
  destruct args as [|a args].
  - split; [discriminate|]. intros (before & after & H & _).
    destruct before; discriminate H.
  - apply (keep_variables_missing d (a :: args) k ∅).
Qed.

End MoreLoad.

Lemma mat_load_as_dict_selects_witness :
  exists mat_dict,
    mat_load_as_dict patient_file figure3_variables = Loaded mat_dict /\
    forall k, mat_dict !! k
              = if decide (k ∈ figure3_variables) then patient_file !! k
                else None.
Proof.
  apply (mat_load_as_dict_selects patient_file figure3_variables).
  - discriminate.
  - intros k Hk. unfold figure3_variables in Hk. simpl in Hk.
    destruct Hk as [<-|[<-|[<-|[<-|[<-|[]]]]]]; vm_compute; eauto.
Defined.

(** ** The scripts *)

Section MoreScripts.
Import scripts.




End MoreScripts.

Section MoreLocalising.
Import figure3.

Lemma le_half_le_defined d_rs :
  (np.sum (le_half d_rs) <= np.sum (np.invert (np.isnan d_rs)))%nat.
Proof.
  unfold np.sum, le_half, np.invert, np.isnan.
  induction d_rs as [|[|q] d IH]; simpl; [lia|exact IH|].
  destruct (Qle_bool q (1 # 2)); simpl; lia.
Qed.

Lemma defined_zero_all_nan d_rs :
  np.sum (np.invert (np.isnan d_rs)) = 0%nat <-> Forall (fun x => x = NaN) d_rs.
Proof.
  unfold np.sum, np.invert, np.isnan.
  induction d_rs as [|[|q] d IH]; simpl.
  - split; [constructor|reflexivity].
  - rewrite IH. split; intros H; [constructor; [reflexivity|exact H]|].
    apply Forall_cons in H as [_ H]. exact H.
  - split; [discriminate|]. intros H. apply Forall_cons in H as [H _].
    discriminate H.
Qed.

(** X19.  The localising percentage of a patient is never an infinity: it
    is NaN exactly when no window has a value, and otherwise a number
    between 0 and 100, which is 100 exactly when every window with a
    value has a value of at most 0.5. *)
Theorem perc_localising_range d_rs :
  perc_localising d_rs <> s_inf /\
  (perc_localising d_rs = s_nan <-> Forall (fun x => x = NaN) d_rs) /\
  (forall p, perc_localising d_rs = s_num p ->
     0 <= p <= 100 /\
     (p == 100 <->
      np.sum (le_half d_rs) = np.sum (np.invert (np.isnan d_rs)))).
Proof.
  unfold perc_localising.
  pose proof (le_half_le_defined d_rs) as Hle.
  pose proof (defined_zero_all_nan d_rs) as Hnan.
  set (k := np.sum (le_half d_rs)) in *.
  set (n := np.sum (np.invert (np.isnan d_rs))) in *.
  destruct (Nat.eqb_spec n 0) as [Hn|Hn].
  - assert (Hk : k = 0%nat) by lia. rewrite Hk. simpl.
    split; [discriminate|]. split; [|discriminate].
    split; [intros _; apply Hnan, Hn|reflexivity].
  - split; [discriminate|]. split.
    + split; [discriminate|]. intros H. apply Hnan in H. contradiction.
    + intros p [= <-]. rewrite Qred_correct.
      assert (Hpos : 0 < inject_Z (Z.of_nat n)).
      { change 0 with (inject_Z 0). rewrite <- Zlt_Qlt. lia. }
      assert (Hk0 : 0 <= inject_Z (Z.of_nat k)).
      { change 0 with (inject_Z 0). rewrite <- Zle_Qle. lia. }
      assert (Hkn : inject_Z (Z.of_nat k) <= inject_Z (Z.of_nat n)).
      { rewrite <- Zle_Qle. lia. }
      assert (Hq : 0 <= inject_Z (Z.of_nat k) / inject_Z (Z.of_nat n) <= 1).
      { split.
        - apply Qle_shift_div_l; [exact Hpos|]. rewrite Qmult_0_l. exact Hk0.
        - apply Qle_shift_div_r; [exact Hpos|]. rewrite Qmult_1_l. exact Hkn. }
      assert (Hnz : ~ inject_Z (Z.of_nat n) == 0).
      { intros E. rewrite E in Hpos. apply Qlt_irrefl in Hpos. exact Hpos. }
      split; [split; lra|]. split.
      * intros H.
        assert (H1 : inject_Z (Z.of_nat k) / inject_Z (Z.of_nat n) == 1) by lra.
        assert (H2 : inject_Z (Z.of_nat k)
                     == inject_Z (Z.of_nat k) / inject_Z (Z.of_nat n)
                        * inject_Z (Z.of_nat n)) by (field; exact Hnz).
        rewrite H1, Qmult_1_l in H2.
        apply (proj1 (inject_Z_injective _ _)) in H2. lia.
      * intros E. rewrite E. field. exact Hnz.
Qed.

End MoreLocalising.

Section MorePeriods.
Import figure4.

Lemma copy_run (h : gmap ref object) a v :
  h !! a = Some (Floats v) ->
  copy a h = (Ok (fresh (dom h)), <[fresh (dom h) := Floats v]> h).
Proof.
  intros Ha. unfold copy, mbind, stE_bind, load_floats, alloc. rewrite Ha.
  reflexivity.
Qed.

Lemma setitem_mask_run (h : gmap ref object) a v mask x :
  h !! a = Some (Floats v) ->
  length mask = length v ->
  setitem_mask a mask x h
  = (Ok tt,
     <[a := Floats (zip_with (fun y (m : bool) => if m then x else y) v mask)]> h).
Proof.
  intros Ha Hlen. unfold setitem_mask. rewrite Ha, Hlen, Nat.eqb_refl.
  reflexivity.
Qed.

Lemma masked_lookup (d : list float) (win : list Z) i x k :
  d !! i = Some x -> win !! i = Some k ->
  zip_with (fun y (m : bool) => if m then NaN else y) d (eq_zero win) !! i
  = Some (if (k =? 0)%Z then NaN else x).
Proof.
  intros Hd Hw. rewrite lookup_zip_with, Hd. simpl.
  unfold eq_zero. rewrite list_lookup_fmap, Hw. reflexivity.
Qed.

Lemma masked_length (d : list float) (win : list Z) :
  length win = length d ->
  length (zip_with (fun y (m : bool) => if m then NaN else y) d (eq_zero win))
  = length d.
Proof.
  intros H. rewrite length_zip_with. unfold eq_zero. rewrite length_map. lia.
Qed.

(** X20.  The interictal and periictal series are built on copies: for a
    series [d_rs] on the heap and period markers of its length, the two
    series returned are new arrays, different from each other; [d_rs]
    itself and every other array of the caller are unchanged; and each
    new series holds the value of [d_rs] in the windows of its period
    and NaN in the others, so that the periictal series is computed from
    the original values, not from the interictal series. *)
Theorem period_series_copies (h : gmap ref object) d_rs d win_interictal
    win_periictal :
  h !! d_rs = Some (Floats d) ->
  length win_interictal = length d ->
  length win_periictal = length d ->
  exists l_ii l_peri v_ii v_peri h',
    period_series d_rs win_interictal win_periictal h
    = (Ok (l_ii, l_peri), h') /\
    h !! l_ii = None /\ h !! l_peri = None /\ l_ii <> l_peri /\
    h' !! d_rs = Some (Floats d) /\
    h' !! l_ii = Some (Floats v_ii) /\
    h' !! l_peri = Some (Floats v_peri) /\
    (forall l, l <> l_ii -> l <> l_peri -> h' !! l = h !! l) /\
    length v_ii = length d /\ length v_peri = length d /\
    forall i x, d !! i = Some x ->
      (forall k, win_interictal !! i = Some k ->
         v_ii !! i = Some (if (k =? 0)%Z then NaN else x)) /\
      (forall k, win_periictal !! i = Some k ->
         v_peri !! i = Some (if (k =? 0)%Z then NaN else x)).
Proof.
  intros Hd Hii Hperi.
  set (mask := fun win => zip_with (fun y (m : bool) => if m then NaN else y)
                                   d (eq_zero win)).
  set (l1 := fresh (dom h)).
  assert (Hl1 : h !! l1 = None) by (apply not_elem_of_dom, is_fresh).
  assert (Hne1 : d_rs <> l1) by congruence.
  set (h1 := <[l1 := Floats d]> h).
  set (h2 := <[l1 := Floats (mask win_interictal)]> h1).
  assert (Hd2 : h2 !! d_rs = Some (Floats d)).
  { unfold h2, h1. rewrite !lookup_insert_ne by congruence. exact Hd. }
  set (l2 := fresh (dom h2)).
  assert (Hl2 : h2 !! l2 = None) by (apply not_elem_of_dom, is_fresh).
  assert (Hne2 : l1 <> l2).
  { intros E. rewrite <- E in Hl2. unfold h2 in Hl2.
    rewrite lookup_insert_eq in Hl2. discriminate Hl2. }
  assert (Hne3 : d_rs <> l2) by congruence.
  set (h3 := <[l2 := Floats d]> h2).
  set (h4 := <[l2 := Floats (mask win_periictal)]> h3).
  exists l1, l2, (mask win_interictal), (mask win_periictal), h4.
  split.
  { unfold period_series. unfold mbind at 1, stE_bind.
    rewrite (copy_run h d_rs d Hd). fold l1 h1.
    unfold mbind at 1, stE_bind.
    rewrite (setitem_mask_run h1 l1 d (eq_zero win_interictal) NaN).
    - fold (mask win_interictal) h2.
      unfold mbind at 1, stE_bind.
      rewrite (copy_run h2 d_rs d Hd2). fold l2 h3.
      unfold mbind at 1, stE_bind.
      rewrite (setitem_mask_run h3 l2 d (eq_zero win_periictal) NaN).
      + reflexivity.
      + apply lookup_insert_eq.
      + unfold eq_zero. rewrite length_map. exact Hperi.
    - apply lookup_insert_eq.
    - unfold eq_zero. rewrite length_map. exact Hii. }
  split; [exact Hl1|]. split.
  { unfold h2, h1 in Hl2. rewrite !lookup_insert_ne in Hl2 by congruence.
    exact Hl2. }
  split; [exact Hne2|]. split.
  { unfold h4, h3. rewrite !lookup_insert_ne by congruence. exact Hd2. }
  split.
  { unfold h4, h3, h2. rewrite !lookup_insert_ne by congruence.
    apply lookup_insert_eq. }
  split; [apply lookup_insert_eq|]. split.
  { intros l Hn1 Hn2. unfold h4, h3, h2, h1.
    rewrite !lookup_insert_ne by congruence. reflexivity. }
  split; [apply masked_length, Hii|]. split; [apply masked_length, Hperi|].
  intros i x Hx. split; intros k Hk; apply masked_lookup; assumption.
Qed.

Lemma period_series_copies_witness :
  exists l_ii l_peri v_ii v_peri h',
    period_series 0%nat [1; 1; 0; 0]%Z [0; 0; 1; 0]%Z series_heap
    = (Ok (l_ii, l_peri), h') /\
    series_heap !! l_ii = None /\ series_heap !! l_peri = None /\
    l_ii <> l_peri /\
    h' !! 0%nat = Some (Floats [Fin (1 # 4); NaN; Fin (3 # 4); Fin 1]) /\
    h' !! l_ii = Some (Floats v_ii) /\
    h' !! l_peri = Some (Floats v_peri) /\
    (forall l, l <> l_ii -> l <> l_peri -> h' !! l = series_heap !! l) /\
    length v_ii = length [Fin (1 # 4); NaN; Fin (3 # 4); Fin 1] /\
    length v_peri = length [Fin (1 # 4); NaN; Fin (3 # 4); Fin 1] /\
    forall i x, [Fin (1 # 4); NaN; Fin (3 # 4); Fin 1] !! i = Some x ->
      (forall k, [1; 1; 0; 0]%Z !! i = Some k ->
         v_ii !! i = Some (if (k =? 0)%Z then NaN else x)) /\
      (forall k, [0; 0; 1; 0]%Z !! i = Some k ->
         v_peri !! i = Some (if (k =? 0)%Z then NaN else x)).
Proof.
  apply (period_series_copies series_heap 0%nat
           [Fin (1 # 4); NaN; Fin (3 # 4); Fin 1] [1; 1; 0; 0]%Z [0; 0; 1; 0]%Z).
  - reflexivity.
  - reflexivity.
  - reflexivity.
Defined.

End MorePeriods.

(** ** The median D_RS *)

Section MoreMedian.














End MoreMedian.

(** ** Setting the paths again, and on a bad path *)

Section MorePaths.
Import common.





End MorePaths.

(** ** The example window of plot_figure2.py *)

Section MoreExample.
Import figure2.




End MoreExample.
